(** * git-diff-viewer: the diff parser and the split-view reconciler

    A shallow embedding of [parseDiff] and of the row-building loop of
    [SplitHunk] (both in [src/App.jsx]), with the properties of the
    specification stated and proved over it.

    Conventions of the embedding:
    - a JavaScript string is a [string]; [split], [startsWith] and
      [substring] only compare and count code units, so the alphabet does
      not matter;
    - a JavaScript number holding a line number is a [Z]; the two agree as
      long as the values stay below 2^53, which line numbers do;
    - [null] is [None];
    - arrays are lists, read with [!!] and written with [<[ _ := _ ]>]. *)

From stdpp Require Import base list strings gmap.
From Stdlib Require Import Ascii ZArith Lia.

Local Open Scope Z_scope.

(** ** String primitives used by the parser *)

Module Str.

(** The line-feed character, ['\n']. *)
Definition LF : ascii := "010"%char.

(** [text.split('\n')]: the segments between line feeds.  A text of [n]
    line feeds always has [n + 1] segments, the last one possibly empty. *)
Fixpoint split (s : string) : list string :=
  match s with
  | EmptyString => [EmptyString]
  | String c s' =>
      if Ascii.eqb c LF then EmptyString :: split s'
      else match split s' with
           | seg :: segs => String c seg :: segs
           | [] => [String c EmptyString]
           end
  end.

(** [line.startsWith(p)]. *)
Fixpoint startsWith (line p : string) : bool :=
  match p, line with
  | EmptyString, _ => true
  | String _ _, EmptyString => false
  | String a p', String b line' => Ascii.eqb a b && startsWith line' p'
  end.

(** [line.substring(n)]: the line without its first [n] code units. *)
Fixpoint substring (n : nat) (line : string) : string :=
  match n, line with
  | O, _ => line
  | S _, EmptyString => EmptyString
  | S n', String _ line' => substring n' line'
  end.

(** [\d]. *)
Definition isDigit (c : ascii) : bool :=
  let n := nat_of_ascii c in (48 <=? n)%nat && (n <=? 57)%nat.

Definition digitVal (c : ascii) : Z := Z.of_nat (nat_of_ascii c) - 48.

(** [parseInt] on a string of decimal digits (the only strings the parser
    hands to it, since they are captures of [\d+]): the number the digits
    denote, leading zeros allowed.  JavaScript rounds it to a double from
    2^53 on; the model keeps it exact. *)
Definition parseInt (s : string) : Z :=
  fold_left (fun acc c => 10 * acc + digitVal c) (String.list_ascii_of_string s) 0.

End Str.

(** ** The hunk-header pattern

    [/@@ -(\d+)(?:,(\d+))? \+(\d+)(?:,(\d+))? @@/], as a backtracking
    matcher in continuation-passing style: every quantifier first tries
    its greedy choice and falls back to the shorter one when the rest of
    the pattern fails, which is how the JavaScript engine explores it. *)

Module Re.

Section Matcher.
Context {A : Type}.

(** A literal string, then the rest [k]. *)
Fixpoint lit (p s : string) (k : string -> option A) : option A :=
  match p with
  | EmptyString => k s
  | String a p' =>
      match s with
      | String b s' => if Ascii.eqb a b then lit p' s' k else None
      | EmptyString => None
      end
  end.

(** [(\d+)]: one or more digits, longest first; [k] receives the capture
    and the remaining input.  [acc] holds the digits taken so far, most
    recent first. *)
Fixpoint digits1 (acc : list ascii) (s : string)
         (k : string -> string -> option A) : option A :=
  match s with
  | String c s' =>
      if Str.isDigit c then
        match digits1 (c :: acc) s' k with
        | Some r => Some r
        | None => k (String.string_of_list_ascii (rev (c :: acc))) s'
        end
      else None
  | EmptyString => None
  end.

(** [(?:,(\d+))?]: the group if it leads to a match, else nothing. *)
Definition optCount (s : string) (k : string -> option A) : option A :=
  match lit "," s (fun s1 => digits1 [] s1 (fun _ s2 => k s2)) with
  | Some r => Some r
  | None => k s
  end.
End Matcher.

(** The pattern anchored at the start of [s]; the result is the pair of
    captures [match[1]], [match[3]]. *)
Definition matchHere (s : string) : option (string * string) :=
  lit "@@ -" s (fun s1 =>
  digits1 [] s1 (fun m1 s2 =>
  optCount s2 (fun s3 =>
  lit " +" s3 (fun s4 =>
  digits1 [] s4 (fun m3 s5 =>
  optCount s5 (fun s6 =>
  lit " @@" s6 (fun _ => Some (m1, m3)))))))).

(** [line.match(re)] without the [g] flag: the leftmost position at which
    the pattern matches. *)
Fixpoint search (s : string) : option (string * string) :=
  match matchHere s with
  | Some r => Some r
  | None =>
      match s with
      | EmptyString => None
      | String _ s' => search s'
      end
  end.

End Re.

(** ** The document model built by [parseDiff] *)

Inductive LineType := context | add | delete | no_newline.

#[global] Instance LineType_eq_dec : EqDecision LineType.
Proof. solve_decision. Defined.

Record DiffLine := mkLine { content : string; type : LineType }.

Record Hunk := mkHunk {
  hunk_header : string;
  lines : list DiffLine;
  oldStart : Z;
  newStart : Z
}.

Record FileChange := mkFile {
  header : string;
  oldName : string;
  newName : string;
  meta : list string;
  hunks : list Hunk
}.

(** ** [parseDiff] *)

Module Parser.

(** The variables of the loop: [files], [currentFile], [currentHunk]. *)
Record state := mkState {
  files : list FileChange;
  currentFile : option FileChange;
  currentHunk : option Hunk
}.

Definition init : state := mkState [] None None.

(** [if (currentHunk) currentFile.hunks.push(currentHunk)]. *)
Definition pushHunk (f : FileChange) (h : option Hunk) : FileChange :=
  match h with
  | Some hk => mkFile (header f) (oldName f) (newName f) (meta f) (hunks f ++ [hk])
  | None => f
  end.

(** [if (currentFile) { if (currentHunk) ...; files.push(currentFile) }]. *)
Definition flush (st : state) : list FileChange :=
  match currentFile st with
  | Some f => files st ++ [pushHunk f (currentHunk st)]
  | None => files st
  end.

(** The type given to a content line. *)
Definition classify (line : string) : LineType :=
  if Str.startsWith line "+" then add
  else if Str.startsWith line "-" then delete
  else if Str.startsWith line "\" then no_newline
  else context.

(** The start numbers read from a hunk header; 0 without a match. *)
Definition headerStarts (line : string) : Z * Z :=
  match Re.search line with
  | Some (m1, m3) => (Str.parseInt m1, Str.parseInt m3)
  | None => (0, 0)
  end.

(** One iteration of the [for] loop, on [line]. *)
Definition step (st : state) (line : string) : state :=
  if Str.startsWith line "diff --git" then
    mkState (flush st)
            (Some (mkFile line EmptyString EmptyString [] []))
            None
  else if Str.startsWith line "--- a/" then
    match currentFile st with
    | Some f =>
        mkState (files st)
                (Some (mkFile (header f) (Str.substring 6 line) (newName f) (meta f) (hunks f)))
                (currentHunk st)
    | None => st
    end
  else if Str.startsWith line "+++ b/" then
    match currentFile st with
    | Some f =>
        mkState (files st)
                (Some (mkFile (header f) (oldName f) (Str.substring 6 line) (meta f) (hunks f)))
                (currentHunk st)
    | None => st
    end
  else if Str.startsWith line "@@ " then
    match currentFile st with
    | Some f =>
        let '(o, n) := headerStarts line in
        mkState (files st)
                (Some (pushHunk f (currentHunk st)))
                (Some (mkHunk line [] o n))
    | None => st
    end
  else
    match currentFile st, currentHunk st with
    | Some f, Some h =>
        mkState (files st) (Some f)
                (Some (mkHunk (hunk_header h)
                              (lines h ++ [mkLine line (classify line)])
                              (oldStart h) (newStart h)))
    | Some f, None =>
        mkState (files st)
                (Some (mkFile (header f) (oldName f) (newName f) (meta f ++ [line]) (hunks f)))
                None
    | None, _ => st
    end.

(** The whole loop over the lines, from state [st]. *)
Definition loop (ls : list string) (st : state) : state :=
  fold_left step ls st.

(** The body of [parseDiff] for a non-empty text. *)
Definition parseLines (ls : list string) : list FileChange :=
  flush (loop ls init).

End Parser.

(** [parseDiff(diffText)]; [None] stands for [null] or [undefined].  The
    guard [!diffText] also catches the empty string. *)
Definition parseDiff (diffText : option string) : list FileChange :=
  match diffText with
  | None => []
  | Some EmptyString => []
  | Some text => Parser.parseLines (Str.split text)
  end.

(** ** The rows built by [SplitHunk] *)

(** One side of a row: [{ num, content }] in a context row (no [type]
    property), [{ num, content, type }] in a change row. *)
Record Side := mkSide {
  num : Z;
  side_content : string;
  side_type : option LineType
}.

Inductive RowType := Rcontext | Rchange.

#[global] Instance RowType_eq_dec : EqDecision RowType.
Proof. solve_decision. Defined.

Record Row := mkRow {
  row_type : RowType;
  left : option Side;
  right : option Side
}.

#[global] Instance Side_eq_dec : EqDecision Side.
Proof. solve_decision. Defined.

#[global] Instance Row_eq_dec : EqDecision Row.
Proof. solve_decision. Defined.

Module Split.

(** [rows], [oldLineCounter], [newLineCounter]. *)
Record state := mkState {
  rows : list Row;
  oldLineCounter : Z;
  newLineCounter : Z
}.

(** [rows[j].left && rows[j].left.type === 'delete' && !rows[j].right]. *)
Definition fillable (r : Row) : bool :=
  match left r with
  | Some l => bool_decide (side_type l = Some delete)
  | None => false
  end
  && match right r with
     | None => true
     | Some _ => false
     end.

(** [rows[j].right = s]. *)
Definition setRight (r : Row) (s : Side) : Row :=
  mkRow (row_type r) (left r) (Some s).

(** The backward [for] loop, entered with [j + 1 = j1]: [Some rows'] when
    it merged ([merged = true]), [None] when it left [rows] alone. *)
Fixpoint scan (rs : list Row) (j1 : nat) (s : Side) : option (list Row) :=
  match j1 with
  | O => None
  | S j =>
      match rs !! j with
      | None => None
      | Some r =>
          if decide (row_type r = Rcontext) then None
          else if fillable r then Some (<[j := setRight r s]> rs)
          else scan rs j s
      end
  end.

(** The loop from [j = rows.length - 1]. *)
Definition merge (rs : list Row) (s : Side) : option (list Row) :=
  scan rs (length rs) s.

(** One iteration of the [while] loop, on [line = hunk.lines[i]]. *)
Definition step (st : state) (line : DiffLine) : state :=
  match type line with
  | context =>
      mkState (rows st ++
                 [mkRow Rcontext
                        (Some (mkSide (oldLineCounter st) (content line) None))
                        (Some (mkSide (newLineCounter st) (content line) None))])
              (oldLineCounter st + 1) (newLineCounter st + 1)
  | delete =>
      mkState (rows st ++
                 [mkRow Rchange
                        (Some (mkSide (oldLineCounter st) (content line) (Some delete)))
                        None])
              (oldLineCounter st + 1) (newLineCounter st)
  | add =>
      let s := mkSide (newLineCounter st) (content line) (Some add) in
      match merge (rows st) s with
      | Some rs' => mkState rs' (oldLineCounter st) (newLineCounter st + 1)
      | None =>
          mkState (rows st ++ [mkRow Rchange None (Some s)])
                  (oldLineCounter st) (newLineCounter st + 1)
      end
  | no_newline => st
  end.

Definition loop (ls : list DiffLine) (st : state) : state :=
  fold_left step ls st.

Definition init (hunk : Hunk) : state :=
  mkState [] (oldStart hunk) (newStart hunk).

End Split.

(** The rows [SplitHunk] renders for [hunk]: the specification's
    [reconcile]. *)
Definition SplitHunk (hunk : Hunk) : list Row :=
  Split.rows (Split.loop (lines hunk) (Split.init hunk)).

(** ** [SplitHunk] over a store of objects

    The same loop once more, this time as the statements of the source
    acting on a store: the hunk, its [lines] array and the line objects
    live in the store and are reached through references, every object
    and array literal allocates, [push] and [rows[j].right = ...] write in
    place.  This is the model in which "the call does not change its
    input" is a statement and not a convention. *)

Module Js.

(** Locations are positions in the store. *)
Abbreviation loc := nat (only parsing).

Inductive val :=
| VUndefined
| VNull
| VNum (n : Z)
| VStr (s : string)
| VRef (l : loc).

Inductive obj :=
| Obj (fields : gmap string val)
| Arr (elems : list val).

(** The store: the object at location [l] is the [l]-th element. *)
Abbreviation heap := (list obj) (only parsing).

(** A computation on the store; [None] is a thrown [TypeError], a value
    outside the fragment the parser produces, or an exhausted fuel. *)
Definition M (A : Type) : Type := heap -> option (A * heap).

Definition ret {A} (a : A) : M A := fun h => Some (a, h).

Definition bind {A B} (m : M A) (k : A -> M B) : M B :=
  fun h => match m h with
           | Some (a, h') => k a h'
           | None => None
           end.

Definition fail {A} : M A := fun _ => None.

Declare Scope js_scope.
Delimit Scope js_scope with js.
Notation "x <- m ;; k" := (bind m (fun x => k))
  (at level 100, m at next level, right associativity) : js_scope.
Notation "m ;;; k" := (bind m (fun _ => k))
  (at level 100, right associativity) : js_scope.
Local Open Scope js_scope.

(** An object or array literal. *)
Definition alloc (o : obj) : M val :=
  fun h => Some (VRef (length h), h ++ [o]).

(** [v.f] on an object. *)
Definition getField (v : val) (f : string) : M val :=
  fun h => match v with
           | VRef l =>
               match h !! l with
               | Some (Obj fs) => Some (default VUndefined (fs !! f), h)
               | _ => None
               end
           | _ => None
           end.

(** [v.f = x] on an object. *)
Definition setField (v : val) (f : string) (x : val) : M unit :=
  fun h => match v with
           | VRef l =>
               match h !! l with
               | Some (Obj fs) => Some (tt, <[l := Obj (<[f := x]> fs)]> h)
               | _ => None
               end
           | _ => None
           end.

(** [v.length] on an array. *)
Definition arrLength (v : val) : M nat :=
  fun h => match v with
           | VRef l =>
               match h !! l with
               | Some (Arr vs) => Some (length vs, h)
               | _ => None
               end
           | _ => None
           end.

(** [v[i]] on an array. *)
Definition arrGet (v : val) (i : nat) : M val :=
  fun h => match v with
           | VRef l =>
               match h !! l with
               | Some (Arr vs) => Some (default VUndefined (vs !! i), h)
               | _ => None
               end
           | _ => None
           end.

(** [v.push(x)]. *)
Definition arrPush (v : val) (x : val) : M unit :=
  fun h => match v with
           | VRef l =>
               match h !! l with
               | Some (Arr vs) => Some (tt, <[l := Arr (vs ++ [x])]> h)
               | _ => None
               end
           | _ => None
           end.

(** [v++] on a counter. *)
Definition incr (v : val) : M val :=
  match v with
  | VNum n => ret (VNum (n + 1))
  | _ => fail
  end.

(** [v === 's']. *)
Definition strictEqStr (v : val) (s : string) : bool :=
  match v with
  | VStr s' => String.eqb s' s
  | _ => false
  end.

(** The truth value of [v] in a condition. *)
Definition isTruthy (v : val) : bool :=
  match v with
  | VUndefined | VNull => false
  | VNum n => negb (n =? 0)
  | VStr s => negb (String.eqb s EmptyString)
  | VRef _ => true
  end.

(** [{ num: n, content: c }]. *)
Definition sideLit2 (n c : val) : obj :=
  Obj (<["num" := n]> (<["content" := c]> ∅)).

(** [{ num: n, content: c, type: t }]. *)
Definition sideLit3 (n c : val) (t : string) : obj :=
  Obj (<["num" := n]> (<["content" := c]> (<["type" := VStr t]> ∅))).

(** [{ type: t, left: l, right: r }]. *)
Definition rowLit (t : string) (l r : val) : obj :=
  Obj (<["type" := VStr t]> (<["left" := l]> (<["right" := r]> ∅))).

(** The backward [for] loop over [rows], entered with [j + 1 = j1]; the
    result is [merged].  [r] is [rows[j]], which the source reads anew in
    every test; no write separates those reads. *)
Fixpoint scanRows (rows : val) (j1 : nat) (newLineCounter : val) (line : val) : M bool :=
  match j1 with
  | O => ret false
  | S j =>
      r <- arrGet rows j ;;
      t <- getField r "type" ;;
      if strictEqStr t "context" then ret false
      else
        l <- getField r "left" ;;
        isDel <- (if isTruthy l
                  then lt <- getField l "type" ;; ret (strictEqStr lt "delete")
                  else ret false) ;;
        free <- (if isDel
                 then rt <- getField r "right" ;; ret (negb (isTruthy rt))
                 else ret false) ;;
        if free
        then
          c <- getField line "content" ;;
          s <- alloc (sideLit3 newLineCounter c "add") ;;
          setField r "right" s ;;;
          ret true
        else scanRows rows j newLineCounter line
  end.

(** The [while] loop, from index [i]. *)
Fixpoint whileLoop (fuel : nat) (hunk rows : val) (i : nat)
         (oldLineCounter newLineCounter : val) : M unit :=
  match fuel with
  | O => fail
  | S fuel' =>
      ls <- getField hunk "lines" ;;
      len <- arrLength ls ;;
      if (i <? len)%nat then
        line <- arrGet ls i ;;
        t <- getField line "type" ;;
        if strictEqStr t "context" then
          c1 <- getField line "content" ;;
          l <- alloc (sideLit2 oldLineCounter c1) ;;
          c2 <- getField line "content" ;;
          r <- alloc (sideLit2 newLineCounter c2) ;;
          row <- alloc (rowLit "context" l r) ;;
          arrPush rows row ;;;
          o' <- incr oldLineCounter ;;
          n' <- incr newLineCounter ;;
          whileLoop fuel' hunk rows (S i) o' n'
        else if strictEqStr t "delete" then
          c <- getField line "content" ;;
          l <- alloc (sideLit3 oldLineCounter c "delete") ;;
          row <- alloc (rowLit "change" l VNull) ;;
          arrPush rows row ;;;
          o' <- incr oldLineCounter ;;
          whileLoop fuel' hunk rows (S i) o' newLineCounter
        else if strictEqStr t "add" then
          len <- arrLength rows ;;
          merged <- scanRows rows len newLineCounter line ;;
          (if merged then ret tt
           else
             c <- getField line "content" ;;
             r <- alloc (sideLit3 newLineCounter c "add") ;;
             row <- alloc (rowLit "change" VNull r) ;;
             arrPush rows row) ;;;
          n' <- incr newLineCounter ;;
          whileLoop fuel' hunk rows (S i) oldLineCounter n'
        else
          whileLoop fuel' hunk rows (S i) oldLineCounter newLineCounter
      else ret tt
  end.

(** The statements of [SplitHunk({ hunk })] up to the [return]; the result
    is the reference to [rows]. *)
Definition SplitHunk (fuel : nat) (hunk : val) : M val :=
  rows <- alloc (Arr []) ;;
  o <- getField hunk "oldStart" ;;
  n <- getField hunk "newStart" ;;
  whileLoop fuel hunk rows 0 o n ;;;
  ret rows.

(** *** Reading structured values back from the store *)

Definition typeName (t : LineType) : string :=
  match t with
  | context => "context"
  | add => "add"
  | delete => "delete"
  | no_newline => "no-newline"
  end.

Definition readType (v : val) : option LineType :=
  if strictEqStr v "context" then Some context
  else if strictEqStr v "add" then Some add
  else if strictEqStr v "delete" then Some delete
  else if strictEqStr v "no-newline" then Some no_newline
  else None.

Definition fieldsAt (h : heap) (v : val) : option (gmap string val) :=
  match v with
  | VRef l => match h !! l with Some (Obj fs) => Some fs | _ => None end
  | _ => None
  end.

Definition elemsAt (h : heap) (v : val) : option (list val) :=
  match v with
  | VRef l => match h !! l with Some (Arr vs) => Some vs | _ => None end
  | _ => None
  end.

Definition readNum (v : option val) : option Z :=
  match v with Some (VNum n) => Some n | _ => None end.

Definition readStr (v : option val) : option string :=
  match v with Some (VStr s) => Some s | _ => None end.

Definition readLine (h : heap) (v : val) : option DiffLine :=
  fs ← fieldsAt h v;
  c ← readStr (fs !! "content");
  t ← fs !! "type" ≫= readType;
  Some (mkLine c t).

Definition readHunk (h : heap) (v : val) : option Hunk :=
  fs ← fieldsAt h v;
  hd ← readStr (fs !! "header");
  la ← fs !! "lines";
  vs ← elemsAt h la;
  ls ← mapM (readLine h) vs;
  o ← readNum (fs !! "oldStart");
  n ← readNum (fs !! "newStart");
  Some (mkHunk hd ls o n).

Definition readSideType (v : option val) : option (option LineType) :=
  match v with
  | None => Some None
  | Some t => Some <$> readType t
  end.

Definition readSide (h : heap) (v : val) : option (option Side) :=
  match v with
  | VNull => Some None
  | _ =>
      fs ← fieldsAt h v;
      n ← readNum (fs !! "num");
      c ← readStr (fs !! "content");
      t ← readSideType (fs !! "type");
      Some (Some (mkSide n c t))
  end.

Definition readRowType (v : val) : option RowType :=
  if strictEqStr v "context" then Some Rcontext
  else if strictEqStr v "change" then Some Rchange
  else None.

Definition readRow (h : heap) (v : val) : option Row :=
  fs ← fieldsAt h v;
  t ← fs !! "type" ≫= readRowType;
  l ← fs !! "left" ≫= readSide h;
  r ← fs !! "right" ≫= readSide h;
  Some (mkRow t l r).

Definition readRows (h : heap) (v : val) : option (list Row) :=
  vs ← elemsAt h v;
  mapM (readRow h) vs.

(** *** Writing a hunk into the store, as [parseDiff] leaves it *)

Definition lineLit (l : DiffLine) : obj :=
  Obj (<["content" := VStr (content l)]> (<["type" := VStr (typeName (type l))]> ∅)).

(** The line objects at the end of [h], then the array of references to
    them, then the hunk object; the result is the reference to the hunk. *)
Definition storeHunk (hk : Hunk) (h : heap) : val * heap :=
  let n := length h in
  let k := length (lines hk) in
  let h1 := h ++ (lineLit <$> lines hk) in
  let h2 := h1 ++ [Arr ((fun i => VRef (n + i)%nat) <$> seq 0 k)] in
  let h3 := h2 ++ [Obj (<["header" := VStr (hunk_header hk)]>
                        (<["lines" := VRef (n + k)%nat]>
                        (<["oldStart" := VNum (oldStart hk)]>
                        (<["newStart" := VNum (newStart hk)]> ∅))))] in
  (VRef (n + k + 1)%nat, h3).

End Js.

(** ** Vocabulary of the statements *)

(** A line that opens a file. *)
Definition isHeader (line : string) : bool := Str.startsWith line "diff --git".

(** The path carried by the last line of [body] that starts with the
    six-character marker [p]; empty when there is none. *)
Definition lastPath (p : string) (body : list string) : string :=
  default EmptyString
    (last (Str.substring 6 <$> filter (fun l => Str.startsWith l p = true) body)).

(** A line that none of the four prefix tests of the parser catches. *)
Definition isContent (line : string) : bool :=
  negb (isHeader line) && negb (Str.startsWith line "--- a/")
  && negb (Str.startsWith line "+++ b/") && negb (Str.startsWith line "@@ ").

(** The string made of one line feed. *)
Definition NL : string := String Str.LF EmptyString.

(** The scenario text of the specification, final line feed included. *)
Definition scenarioText : string :=
  "diff --git a/x.txt b/x.txt" +:+ NL +:+
  "--- a/x.txt" +:+ NL +:+
  "+++ b/x.txt" +:+ NL +:+
  "@@ -1,2 +1,2 @@" +:+ NL +:+
  "-old" +:+ NL +:+
  "+new" +:+ NL +:+
  " context" +:+ NL.

(** A file with two [--- a/] lines. *)
Definition twoOldNames : string :=
  "diff --git a/x.txt b/x.txt" +:+ NL +:+
  "--- a/first.txt" +:+ NL +:+
  "--- a/second.txt" +:+ NL +:+
  "+++ b/first.txt" +:+ NL +:+
  "+++ b/second.txt".

(** A row the backward scan walks past: neither a context row nor a
    delete row whose right slot is still empty. *)
Definition passed (r : Row) : Prop :=
  row_type r <> Rcontext /\ Split.fillable r = false.

(** The invariant of a row. *)
Definition rowInvariant (r : Row) : Prop :=
  match row_type r with
  | Rcontext =>
      exists l r', left r = Some l /\ right r = Some r'
                   /\ side_content l = side_content r'
  | Rchange => is_Some (left r) \/ is_Some (right r)
  end.

(** The left side of a row when it is a deletion, the right side when it
    is an addition. *)
Definition leftDelete (r : Row) : option Side :=
  match left r with
  | Some l => if decide (side_type l = Some delete) then Some l else None
  | None => None
  end.

Definition rightAdd (r : Row) : option Side :=
  match right r with
  | Some s => if decide (side_type s = Some add) then Some s else None
  | None => None
  end.

(** The deletions of a hunk, numbered as the old file numbers them: the
    counter advances on context and delete lines. *)
Fixpoint deleteSides (ls : list DiffLine) (o : Z) : list Side :=
  match ls with
  | [] => []
  | l :: ls' =>
      match type l with
      | context => deleteSides ls' (o + 1)
      | delete => mkSide o (content l) (Some delete) :: deleteSides ls' (o + 1)
      | _ => deleteSides ls' o
      end
  end.

(** The additions of a hunk, numbered as the new file numbers them. *)
Fixpoint addSides (ls : list DiffLine) (n : Z) : list Side :=
  match ls with
  | [] => []
  | l :: ls' =>
      match type l with
      | context => addSides ls' (n + 1)
      | add => mkSide n (content l) (Some add) :: addSides ls' (n + 1)
      | _ => addSides ls' n
      end
  end.

(** The two sides of a row when it is a context row. *)
Definition contextPair (r : Row) : option (Side * Side) :=
  match row_type r, left r, right r with
  | Rcontext, Some l, Some r' => Some (l, r')
  | _, _, _ => None
  end.

(** The context lines of a hunk with their two numbers: the old counter
    advances on context and delete lines, the new one on context and add
    lines. *)
Fixpoint contextSides (ls : list DiffLine) (o n : Z) : list (Side * Side) :=
  match ls with
  | [] => []
  | l :: ls' =>
      match type l with
      | context =>
          (mkSide o (content l) None, mkSide n (content l) None)
            :: contextSides ls' (o + 1) (n + 1)
      | delete => contextSides ls' (o + 1) n
      | add => contextSides ls' o (n + 1)
      | no_newline => contextSides ls' o n
      end
  end.

(** [rs'] keeps the rows of [rs]: same positions, same kind, same left
    side, and every right slot that was filled holds what it held. *)
Definition keeps (rs rs' : list Row) : Prop :=
  forall j r, rs !! j = Some r ->
    exists r', rs' !! j = Some r'
               /\ row_type r' = row_type r
               /\ left r' = left r
               /\ (forall s, right r = Some s -> right r' = Some s).

(** The rows of a block of deletions [dl] followed by a block of at most
    as many additions [al]: one row per deletion, and the additions in the
    right slots from the bottom row upwards. *)
Definition pairedRows (o n : Z) (dl al : list DiffLine) : list Row :=
  imap (fun i d =>
          mkRow Rchange
                (Some (mkSide (o + Z.of_nat i) (content d) (Some delete)))
                ((fun a => mkSide (n + Z.of_nat (length dl - 1 - i)) (content a) (Some add))
                   <$> al !! (length dl - 1 - i)%nat))
       dl.

(** A row with a deletion on the left and an addition on the right. *)
Definition fullyPaired (r : Row) : Prop :=
  row_type r = Rchange
  /\ (exists l, left r = Some l /\ side_type l = Some delete)
  /\ (exists s, right r = Some s /\ side_type s = Some add).

(** A row with a deletion on the left and nothing on the right. *)
Definition leftOnly (r : Row) : Prop :=
  row_type r = Rchange
  /\ (exists l, left r = Some l /\ side_type l = Some delete)
  /\ right r = None.

(** Two deletions and one addition. *)
Definition hunk21 : Hunk :=
  mkHunk "@@ -1,2 +1 @@" [mkLine "-a" delete; mkLine "-b" delete; mkLine "+x" add] 1 1.

(** *** Structured values in the store

    How a hunk of the model and the rows of the model sit in a store [h].
    Rows are told apart from what the store held before the call, [h0]:
    they live at locations [h0] does not have. *)

Module Repr.
Import Js.

Definition rowTypeName (t : RowType) : string :=
  match t with
  | Rcontext => "context"
  | Rchange => "change"
  end.

Definition sideObj (s : Side) : obj :=
  match side_type s with
  | None => sideLit2 (VNum (num s)) (VStr (side_content s))
  | Some t => sideLit3 (VNum (num s)) (VStr (side_content s)) (typeName t)
  end.

Definition sideAt (h : heap) (v : val) (o : option Side) : Prop :=
  match o with
  | None => v = VNull
  | Some s => exists l, v = VRef l /\ h !! l = Some (sideObj s)
  end.

Definition rowAt (h0 h : heap) (v : val) (r : Row) : Prop :=
  exists l lv rv,
    v = VRef l /\ (length h0 <= l)%nat
    /\ h !! l = Some (rowLit (rowTypeName (row_type r)) lv rv)
    /\ sideAt h lv (left r) /\ sideAt h rv (right r).

Definition rowsAt (h0 h : heap) (ra : loc) (rs : list Row) : Prop :=
  h0 `prefix_of` h /\ (length h0 <= ra)%nat
  /\ exists vs, h !! ra = Some (Arr vs) /\ NoDup vs /\ Forall2 (rowAt h0 h) vs rs.

Definition lineAt (h : heap) (v : val) (line : DiffLine) : Prop :=
  exists l fs,
    v = VRef l /\ h !! l = Some (Obj fs)
    /\ fs !! "content" = Some (VStr (content line))
    /\ fs !! "type" = Some (VStr (typeName (type line))).

Definition hunkAt (h : heap) (v : val) (hk : Hunk) : Prop :=
  exists l fs la vs,
    v = VRef l /\ h !! l = Some (Obj fs)
    /\ fs !! "header" = Some (VStr (hunk_header hk))
    /\ fs !! "lines" = Some (VRef la)
    /\ fs !! "oldStart" = Some (VNum (oldStart hk))
    /\ fs !! "newStart" = Some (VNum (newStart hk))
    /\ h !! la = Some (Arr vs)
    /\ Forall2 (lineAt h) vs (lines hk).

End Repr.

(** A store that holds one hunk of two deletions and one addition. *)
Definition store21 : Js.val * Js.heap := Js.storeHunk hunk21 [].

(** ** The other code of [App.jsx]

    What the components do with the model besides building the rows of the
    split view: the line numbers of the unified view, the counts of the
    stat bars, and the collapse state of the file list. *)

(** *** The unified view of a hunk ([FileViewer], the [hunk.lines.map]) *)

(** What one [<DiffLine>] of the unified view receives. *)
Record UnifiedLine := mkUnified {
  u_type : LineType;
  u_content : string;
  oldNum : option Z;
  newNum : option Z
}.

(** The callback of [hunk.lines.map], with the two counters it closes
    over: [if (line.type !== 'add') o = oldLine++] and
    [if (line.type !== 'delete') n = newLine++]. *)
Fixpoint unifiedLines (ls : list DiffLine) (oldLine newLine : Z) : list UnifiedLine :=
  match ls with
  | [] => []
  | line :: ls' =>
      let notAdd := negb (bool_decide (type line = add)) in
      let notDelete := negb (bool_decide (type line = delete)) in
      mkUnified (type line) (content line)
                (if notAdd then Some oldLine else None)
                (if notDelete then Some newLine else None)
        :: unifiedLines ls'
             (if notAdd then oldLine + 1 else oldLine)
             (if notDelete then newLine + 1 else newLine)
  end.

(** [let oldLine = hunk.oldStart; let newLine = hunk.newStart; ...]. *)
Definition UnifiedHunk (hunk : Hunk) : list UnifiedLine :=
  unifiedLines (lines hunk) (oldStart hunk) (newStart hunk).

(** *** The stat bars *)

(** [h.lines.filter(l => l.type === t).length]. *)
Definition countType (t : LineType) (h : Hunk) : nat :=
  length (filter (fun l => type l = t) (lines h)).

(** [adds] and [dels] of [FileViewer]:
    [file.hunks.reduce((acc, h) => acc + ..., 0)]. *)
Definition fileCount (t : LineType) (file : FileChange) : nat :=
  foldl (fun acc h => (acc + countType t h)%nat) 0%nat (hunks file).

(** [totalAdds] and [totalDels] of [App]: the nested [reduce]. *)
Definition totalCount (t : LineType) (parsedFiles : list FileChange) : nat :=
  foldl (fun acc f =>
           (acc + foldl (fun hAcc h => (hAcc + countType t h)%nat) 0%nat (hunks f))%nat)
        0%nat parsedFiles.

(** *** The collapse state of the file list

    [collapsedFiles] is a plain object used as a map from a file's key to a
    boolean: its own properties are a [gmap].  A read [prev[k]] of a key
    that is not an own property falls through to the prototype, where the
    names of [Object.prototype] (all of them truthy) are found;
    [inherited] says which names those are. *)

Section Collapse.
Variable inherited : string -> bool.

(** [file.oldName || file.newName]: the empty string is falsy. *)
Definition fileKey (file : FileChange) : string :=
  match oldName file with
  | EmptyString => newName file
  | k => k
  end.

(** The truth value of [collapsedFiles[k]]. *)
Definition truthyAt (collapsedFiles : gmap string bool) (k : string) : bool :=
  match collapsedFiles !! k with
  | Some b => b
  | None => inherited k
  end.

(** [prev => ({ ...prev, [fileName]: !prev[fileName] })]. *)
Definition toggleCollapse (fileName : string) (prev : gmap string bool)
  : gmap string bool :=
  <[fileName := negb (truthyAt prev fileName)]> prev.

(** The truth value of the [isCollapsed] prop of a file:
    [collapsedFiles[file.oldName || file.newName] || false]. *)
Definition isCollapsed (collapsedFiles : gmap string bool) (file : FileChange) : bool :=
  truthyAt collapsedFiles (fileKey file).
End Collapse.

(** ** Vocabulary of the further statements *)

(** A line that sets a name and is dropped: [--- a/...] or [+++ b/...]. *)
Definition isMarker (line : string) : bool :=
  Str.startsWith line "--- a/" || Str.startsWith line "+++ b/".

(** The lines a parsed model stands for: per file the header, the
    metadata, then per hunk its header and the content of its lines. *)
Definition printHunk (h : Hunk) : list string :=
  hunk_header h :: (content <$> lines h).

Definition printFile (f : FileChange) : list string :=
  header f :: meta f ++ (hunks f ≫= printHunk).

Definition printFiles (fs : list FileChange) : list string :=
  fs ≫= printFile.

(** The lines from the first header line on. *)
Fixpoint fromFirstHeader (ls : list string) : list string :=
  match ls with
  | [] => []
  | l :: ls' => if isHeader l then l :: ls' else fromFirstHeader ls'
  end.

(** A non-empty string of decimal digits. *)
Definition allDigits (s : string) : bool :=
  match s with
  | EmptyString => false
  | _ => forallb Str.isDigit (String.list_ascii_of_string s)
  end.

(** The next character, if any, is not a digit. *)
Definition stopsDigits (s : string) : bool :=
  match s with
  | EmptyString => true
  | String c _ => negb (Str.isDigit c)
  end.

(** The optional [,<count>] of a hunk header. *)
Definition countText (c : option string) : string :=
  match c with
  | Some d => "," +:+ d
  | None => EmptyString
  end.

(** A well-formed hunk header, with what follows the closing [@@]. *)
Definition hunkHeaderText (d1 : string) (c2 : option string)
           (d3 : string) (c4 : option string) (tail : string) : string :=
  "@@ -" +:+ d1 +:+ countText c2 +:+ " +" +:+ d3 +:+ countText c4 +:+ " @@" +:+ tail.

(** A well-formed line of a hunk, hunk and file of the model. *)
Definition lineOK (l : DiffLine) : Prop :=
  isContent (content l) = true /\ type l = Parser.classify (content l).

Definition hunkOK (h : Hunk) : Prop :=
  Str.startsWith (hunk_header h) "@@ " = true
  /\ (oldStart h, newStart h) = Parser.headerStarts (hunk_header h)
  /\ 0 <= oldStart h /\ 0 <= newStart h
  /\ Forall lineOK (lines h).

Definition fileOK (f : FileChange) : Prop :=
  isHeader (header f) = true
  /\ Forall (fun l => isContent l = true) (meta f)
  /\ Forall hunkOK (hunks f).

(** The old-file side and the new-file side of the lines of a hunk, as
    the split view numbers them: marker lines are skipped. *)
Fixpoint leftSides (ls : list DiffLine) (o : Z) : list Side :=
  match ls with
  | [] => []
  | l :: ls' =>
      match type l with
      | context => mkSide o (content l) None :: leftSides ls' (o + 1)
      | delete => mkSide o (content l) (Some delete) :: leftSides ls' (o + 1)
      | _ => leftSides ls' o
      end
  end.

Fixpoint rightSides (ls : list DiffLine) (n : Z) : list Side :=
  match ls with
  | [] => []
  | l :: ls' =>
      match type l with
      | context => mkSide n (content l) None :: rightSides ls' (n + 1)
      | add => mkSide n (content l) (Some add) :: rightSides ls' (n + 1)
      | _ => rightSides ls' n
      end
  end.

(** The number of lines of the given kinds. *)
Definition countLines (p : LineType -> bool) (ls : list DiffLine) : nat :=
  length (filter (fun l => p (type l) = true) ls).

Definition onOldSide (t : LineType) : bool :=
  match t with context | delete => true | _ => false end.

Definition onNewSide (t : LineType) : bool :=
  match t with context | add => true | _ => false end.

(** A number and a text, as a cell shows them. *)
Definition sideCell (s : Side) : Z * string := (num s, side_content s).

Definition oldCell (u : UnifiedLine) : option (Z * string) :=
  (fun n => (n, u_content u)) <$> oldNum u.

Definition newCell (u : UnifiedLine) : option (Z * string) :=
  (fun n => (n, u_content u)) <$> newNum u.

(** A hunk without its [no-newline] lines. *)
Definition withoutMarkers (hunk : Hunk) : Hunk :=
  mkHunk (hunk_header hunk)
         (filter (fun l => type l <> no_newline) (lines hunk))
         (oldStart hunk) (newStart hunk).

(** * Properties *)

(** ** The pattern and the parser on small inputs *)

Example search_plain : Re.search "@@ -12,3 +4 @@ int main()" = Some ("12", "4").
Proof. reflexivity. Qed.

Example search_not_anchored : Re.search "@@ x @@ -10 +45,6 @@" = Some ("10", "45").
Proof. reflexivity. Qed.

Example search_no_match : Re.search "@@ -12,3 +b45,6 @@" = None.
Proof. reflexivity. Qed.

Example search_needs_closing : Re.search "@@ -1,2 +3,4" = None.
Proof. reflexivity. Qed.

Example split_trailing : Str.split ("a" +:+ NL +:+ "b" +:+ NL) = ["a"; "b"; EmptyString].
Proof. reflexivity. Qed.

Example parse_malformed_header :
  parseDiff (Some ("diff --git a/f b/f" +:+ NL +:+ "index 1..2" +:+ NL +:+
                   "@@ bogus @@" +:+ NL +:+ "+x" +:+ NL +:+
                   "@@ -3 +4 @@" +:+ NL +:+ "\ No newline at end of file")) =
    [mkFile "diff --git a/f b/f" EmptyString EmptyString ["index 1..2"]
       [mkHunk "@@ bogus @@" [mkLine "+x" add] 0 0;
        mkHunk "@@ -3 +4 @@" [mkLine "\ No newline at end of file" no_newline] 3 4]].
Proof. reflexivity. Qed.

Example rows_of_a_mixed_hunk :
  SplitHunk (mkHunk "@@ -5,4 +7,4 @@"
               [mkLine "-a" delete; mkLine "-b" delete; mkLine "+x" add;
                mkLine " z" context; mkLine "+w" add] 5 7) =
    [mkRow Rchange (Some (mkSide 5 "-a" (Some delete))) None;
     mkRow Rchange (Some (mkSide 6 "-b" (Some delete))) (Some (mkSide 7 "+x" (Some add)));
     mkRow Rcontext (Some (mkSide 7 " z" None)) (Some (mkSide 8 " z" None));
     mkRow Rchange None (Some (mkSide 9 "+w" (Some add)))].
Proof. reflexivity. Qed.

(** ** The parser *)

Section ParserFacts.
Import Parser.

Lemma step_no_file st line :
  currentFile st = None -> isHeader line = false -> step st line = st.
Proof.
  intros Hf Hh. unfold step. unfold isHeader in Hh. rewrite Hh, Hf.
  by repeat case_match.
Qed.

Lemma loop_no_file ls st :
  currentFile st = None ->
  Forall (fun l => isHeader l = false) ls ->
  loop ls st = st.
Proof.
  intros Hf Hall. revert st Hf.
  induction Hall as [|l ls Hl _ IH]; intros st Hf; [done|].
  unfold loop in *. simpl. rewrite step_no_file by done. by apply IH.
Qed.
End ParserFacts.

(** C7. A text in which no line starts with [diff --git] parses to the
    empty sequence of files, and so do the empty string and an absent
    text; [parseDiff] is a total function, so no error is raised. *)
Theorem parseDiff_without_header_is_empty (diffText : option string) :
  (forall text, diffText = Some text ->
     Forall (fun line => Str.startsWith line "diff --git" = false) (Str.split text)) ->
  parseDiff diffText = [].
Proof.
  intros H. destruct diffText as [text|]; [|done].
  specialize (H text eq_refl).
  destruct text as [|c text]; [done|].
  unfold parseDiff, Parser.parseLines.
  rewrite loop_no_file; done.
Qed.

Lemma parseDiff_without_header_is_empty_witness :
  parseDiff (Some ("index 1..2" +:+ NL +:+ "+++ b/x" +:+ NL +:+ "@@ -1 +1 @@" +:+ NL +:+ "+x")) = []
  /\ parseDiff (Some EmptyString) = []
  /\ parseDiff None = [].
Proof.
  split; [|split]; apply parseDiff_without_header_is_empty.
  - intros text [= <-]. vm_compute. repeat constructor.
  - intros text [= <-]. vm_compute. repeat constructor.
  - intros text [=].
Defined.

Section ParserLoop.
Import Parser.

Lemma loop_app l1 l2 st : loop (l1 ++ l2) st = loop l2 (loop l1 st).
Proof. apply fold_left_app. Qed.

Lemma loop_cons l ls st : loop (l :: ls) st = loop ls (step st l).
Proof. done. Qed.

Lemma isContent_step st line :
  isContent line = true ->
  step st line =
    match currentFile st, currentHunk st with
    | Some f, Some h =>
        mkState (files st) (Some f)
                (Some (mkHunk (hunk_header h)
                              (lines h ++ [mkLine line (classify line)])
                              (oldStart h) (newStart h)))
    | Some f, None =>
        mkState (files st)
                (Some (mkFile (header f) (oldName f) (newName f) (meta f ++ [line]) (hunks f)))
                None
    | None, _ => st
    end.
Proof.
  unfold isContent, isHeader, step. intros H.
  repeat (apply andb_prop in H as [H ?]).
  by repeat match goal with
            | [ E : negb ?b = true |- _ ] => apply negb_true_iff in E; rewrite E
            end.
Qed.

Lemma hunkStart_not_other line :
  Str.startsWith line "@@ " = true ->
  isHeader line = false
  /\ Str.startsWith line "--- a/" = false
  /\ Str.startsWith line "+++ b/" = false.
Proof.
  destruct line as [|c line]; [done|]. unfold isHeader.
  cbn [Str.startsWith].
  destruct (Ascii.eqb "@" c) eqn:E; [|done].
  apply Ascii.eqb_eq in E as <-. done.
Qed.

Lemma pushHunk_names f h :
  header (pushHunk f h) = header f
  /\ oldName (pushHunk f h) = oldName f
  /\ newName (pushHunk f h) = newName f.
Proof. by destruct h. Qed.

Lemma files_step_prefix st line : files st `prefix_of` files (step st line).
Proof.
  unfold step, flush.
  repeat case_match; simpl; try done; try (by apply prefix_app_r).
Qed.

Lemma files_loop_prefix ls st : files st `prefix_of` files (loop ls st).
Proof.
  revert st. induction ls as [|l ls IH]; intros st; [done|].
  rewrite loop_cons. etrans; [apply files_step_prefix | apply IH].
Qed.

Lemma files_flush_prefix st : files st `prefix_of` flush st.
Proof. unfold flush. case_match; [by apply prefix_app_r | done]. Qed.

Lemma default_last_cons {A} (d x : A) l :
  default d (last (x :: l)) = default x (last l).
Proof. rewrite last_cons. by destruct (last l). Qed.

(** While a file is open and no header comes, the file stays the same
    but for its names, its metadata and its hunks; each marker line
    overwrites the name it carries. *)
Lemma loop_body_names body : forall fs f h,
  Forall (fun l => isHeader l = false) body ->
  exists f' h',
    loop body (mkState fs (Some f) h) = mkState fs (Some f') h'
    /\ header f' = header f
    /\ oldName f' =
         default (oldName f)
           (last (Str.substring 6 <$> filter (fun l => Str.startsWith l "--- a/" = true) body))
    /\ newName f' =
         default (newName f)
           (last (Str.substring 6 <$> filter (fun l => Str.startsWith l "+++ b/" = true) body)).
Proof.
  induction body as [|l body IH]; intros fs f h Hall.
  { by exists f, h. }
  apply Forall_cons in Hall as [Hl Hall]. unfold isHeader in Hl.
  rewrite loop_cons. unfold step. rewrite Hl. cbn [currentFile currentHunk files].
  destruct (Str.startsWith l "--- a/") eqn:Ea.
  { assert (Str.startsWith l "+++ b/" = false) as Eb.
    { destruct l as [|c l]; [done|]. cbn [Str.startsWith] in *.
      destruct (Ascii.eqb "-" c) eqn:E; [|done].
      apply Ascii.eqb_eq in E as <-. done. }
    edestruct IH as (f' & h' & -> & Hh & Ho & Hn); [done|].
    exists f', h'. split; [done|]. rewrite Hh, Ho, Hn. cbn [header oldName newName].
    rewrite filter_cons_True by done. rewrite (filter_cons_False _ l) by congruence.
    rewrite fmap_cons, default_last_cons. done. }
  destruct (Str.startsWith l "+++ b/") eqn:Eb.
  { edestruct IH as (f' & h' & -> & Hh & Ho & Hn); [done|].
    exists f', h'. split; [done|]. rewrite Hh, Ho, Hn. cbn [header oldName newName].
    rewrite (filter_cons_False _ l) by congruence. rewrite (filter_cons_True _ l) by done.
    rewrite fmap_cons, default_last_cons. done. }
  rewrite (filter_cons_False _ l) by congruence.
  rewrite (filter_cons_False _ l) by congruence.
  destruct (Str.startsWith l "@@ ").
  { destruct (headerStarts l) as [o n].
    edestruct IH as (f' & h' & -> & Hh & Ho & Hn); [done|].
    exists f', h'. split; [done|].
    destruct (pushHunk_names f h) as (-> & -> & ->) in Hh, Ho, Hn. done. }
  destruct h as [hk|].
  - edestruct IH as (f' & h' & -> & Hh & Ho & Hn); [done|]. by exists f', h'.
  - edestruct IH as (f' & h' & -> & Hh & Ho & Hn); [done|]. by exists f', h'.
Qed.

Lemma flush_step_length st line :
  length (flush (step st line)) =
  (length (flush st) + (if isHeader line then 1 else 0))%nat.
Proof.
  unfold step, isHeader.
  destruct (Str.startsWith line "diff --git").
  { unfold flush at 1. cbn. rewrite length_app. done. }
  unfold flush.
  repeat case_match; simplify_eq/=; rewrite ?length_app; simpl; lia.
Qed.

Lemma flush_loop_length ls : forall st,
  length (flush (loop ls st)) =
  (length (flush st) + length (filter (fun l => isHeader l = true) ls))%nat.
Proof.
  induction ls as [|l ls IH]; intros st; [simpl; lia|].
  rewrite loop_cons, IH, flush_step_length.
  destruct (isHeader l) eqn:E.
  - rewrite filter_cons_True by done. simpl. lia.
  - rewrite filter_cons_False by congruence. lia.
Qed.
End ParserLoop.

(** C2, as the code has it.  In the text of a diff, take a header line
    [hdr] and the lines [body] that follow it up to the next header line
    or the end of the text.  The file parsed from them (its position in
    the result is the number of header lines before [hdr]) has [hdr] as
    its header, and its [oldName] is the path of the LAST [--- a/] line of
    [body] (each such line overwrites the name), its [newName] the path of
    the last [+++ b/] line; a name without such a line stays empty. *)
Theorem names_come_from_last_marker (text : string) (pre : list string)
        (hdr : string) (body rest : list string) :
  Str.split text = pre ++ hdr :: body ++ rest ->
  isHeader hdr = true ->
  Forall (fun l => isHeader l = false) body ->
  (rest = [] \/ exists hdr' rest', rest = hdr' :: rest' /\ isHeader hdr' = true) ->
  exists f,
    parseDiff (Some text) !! length (filter (fun l => isHeader l = true) pre) = Some f
    /\ header f = hdr
    /\ oldName f = lastPath "--- a/" body
    /\ newName f = lastPath "+++ b/" body.
Proof.
  intros Hsplit Hhdr Hbody Hrest.
  assert (parseDiff (Some text) = Parser.parseLines (Str.split text)) as ->.
  { destruct text as [|c text]; [|done].
    destruct pre as [|p pre]; simplify_eq/=.
    destruct pre; simplify_eq/=. }
  rewrite Hsplit. unfold Parser.parseLines.
  rewrite loop_app, loop_cons.
  set (st0 := Parser.loop pre Parser.init).
  assert (length (Parser.flush st0) = length (filter (fun l => isHeader l = true) pre)) as <-.
  { unfold st0. rewrite flush_loop_length. done. }
  unfold Parser.step at 1. fold (isHeader hdr). rewrite Hhdr.
  rewrite loop_app.
  edestruct (loop_body_names body (Parser.flush st0)) as (f' & h' & -> & Hh & Ho & Hn);
    [done|].
  cbn [header oldName newName] in Hh, Ho, Hn.
  exists (Parser.pushHunk f' h').
  destruct (pushHunk_names f' h') as (-> & -> & ->).
  split; [|done].
  set (st1 := Parser.mkState (Parser.flush st0) (Some f') h').
  assert ((Parser.flush st0 ++ [Parser.pushHunk f' h']) `prefix_of`
            Parser.flush (Parser.loop rest st1)) as Hpre.
  { destruct Hrest as [->|(hdr' & rest' & -> & Hh')]; [done|].
    rewrite loop_cons. unfold Parser.step at 1. fold (isHeader hdr'). rewrite Hh'.
    etrans; [|apply files_flush_prefix]. etrans; [|apply files_loop_prefix]. done. }
  eapply prefix_lookup_Some; [|done].
  by rewrite list_lookup_middle.
Qed.

Lemma names_come_from_last_marker_witness :
  exists f,
    parseDiff (Some twoOldNames) !! 0%nat = Some f
    /\ header f = "diff --git a/x.txt b/x.txt"
    /\ oldName f = "second.txt"
    /\ newName f = "second.txt".
Proof.
  apply (names_come_from_last_marker twoOldNames []
           "diff --git a/x.txt b/x.txt"
           ["--- a/first.txt"; "--- a/second.txt"; "+++ b/first.txt"; "+++ b/second.txt"]
           []).
  - reflexivity.
  - reflexivity.
  - repeat constructor.
  - left. reflexivity.
Defined.

(** C2, as the specification has it, fails: in a file with the lines
    [--- a/first.txt] and [--- a/second.txt] the second one is not
    ignored, and likewise for the two [+++ b/] lines. *)
Lemma names_not_from_first_marker :
  Str.split twoOldNames =
    ["diff --git a/x.txt b/x.txt"; "--- a/first.txt"; "--- a/second.txt";
     "+++ b/first.txt"; "+++ b/second.txt"]
  /\ oldName <$> parseDiff (Some twoOldNames) = ["second.txt"]
  /\ oldName <$> parseDiff (Some twoOldNames) <> ["first.txt"]
  /\ newName <$> parseDiff (Some twoOldNames) = ["second.txt"]
  /\ newName <$> parseDiff (Some twoOldNames) <> ["first.txt"].
Proof. repeat split; by vm_compute. Qed.

(** C3.  What the code returns on the scenario text: one file, one hunk
    starting at 1 and 1, and FOUR lines, since the text ends with a line
    feed and [split] then yields a last, empty segment, which the open
    hunk takes as a context line. *)
Theorem scenario_has_a_fourth_line :
  parseDiff (Some scenarioText) =
    [mkFile "diff --git a/x.txt b/x.txt" "x.txt" "x.txt" []
       [mkHunk "@@ -1,2 +1,2 @@"
          [mkLine "-old" delete; mkLine "+new" add; mkLine " context" context;
           mkLine EmptyString context]
          1 1]].
Proof. by vm_compute. Qed.

(** The same text without its last line feed parses as the scenario
    says. *)
Example scenario_without_final_newline :
  parseDiff (Some ("diff --git a/x.txt b/x.txt" +:+ NL +:+ "--- a/x.txt" +:+ NL +:+
                   "+++ b/x.txt" +:+ NL +:+ "@@ -1,2 +1,2 @@" +:+ NL +:+
                   "-old" +:+ NL +:+ "+new" +:+ NL +:+ " context")) =
    [mkFile "diff --git a/x.txt b/x.txt" "x.txt" "x.txt" []
       [mkHunk "@@ -1,2 +1,2 @@"
          [mkLine "-old" delete; mkLine "+new" add; mkLine " context" context]
          1 1]].
Proof. by vm_compute. Qed.

(** C6.  A line that starts with [@@ ] while a file is open and that the
    pattern does not match closes the open hunk and opens a new one with
    both start numbers 0; the loop goes on from there, and a content line
    that follows is added to the new hunk. *)
Theorem malformed_hunk_header_opens_hunk (st : Parser.state) (f : FileChange)
        (line : string) :
  Parser.currentFile st = Some f ->
  Str.startsWith line "@@ " = true ->
  Re.search line = None ->
  let st' := Parser.mkState (Parser.files st)
                            (Some (Parser.pushHunk f (Parser.currentHunk st)))
                            (Some (mkHunk line [] 0 0)) in
  Parser.step st line = st'
  /\ (forall rest, Parser.loop (line :: rest) st = Parser.loop rest st')
  /\ (forall next, isContent next = true ->
        Parser.currentHunk (Parser.loop [line; next] st) =
        Some (mkHunk line [mkLine next (Parser.classify next)] 0 0)).
Proof.
  intros Hf Hat Hre st'.
  assert (Parser.step st line = st') as Hstep.
  { destruct (hunkStart_not_other line Hat) as (H1 & H2 & H3).
    unfold isHeader in H1. unfold Parser.step.
    rewrite H1, H2, H3, Hat, Hf. unfold Parser.headerStarts. by rewrite Hre. }
  split; [done|]. split.
  - intros rest. by rewrite loop_cons, Hstep.
  - intros next Hnext. rewrite !loop_cons, Hstep.
    unfold Parser.loop. simpl. by rewrite isContent_step.
Qed.

Lemma malformed_hunk_header_opens_hunk_witness :
  Parser.currentHunk
    (Parser.loop ["@@ -x,2 +1,2 @@"; "+new"]
       (Parser.mkState [] (Some (mkFile "diff --git a/x b/x" "x" "x" [] [])) None)) =
  Some (mkHunk "@@ -x,2 +1,2 @@" [mkLine "+new" add] 0 0).
Proof.
  apply (malformed_hunk_header_opens_hunk
           (Parser.mkState [] (Some (mkFile "diff --git a/x b/x" "x" "x" [] [])) None)
           (mkFile "diff --git a/x b/x" "x" "x" [] [])
           "@@ -x,2 +1,2 @@"); reflexivity.
Defined.

(** ** The backward scan *)

Section Scan.
Import Split.

Lemma loop_split_app l1 l2 st : loop (l1 ++ l2) st = loop l2 (loop l1 st).
Proof. apply fold_left_app. Qed.

Lemma scan_length rs j1 s rs' : scan rs j1 s = Some rs' -> length rs' = length rs.
Proof.
  induction j1 as [|j IH]; [done|]. simpl.
  repeat case_match; try done.
  intros [= <-]. by rewrite length_insert.
Qed.

(** Rows that are walked past do not influence the scan. *)
Lemma scan_skip rs s j j1 :
  (j <= j1 <= length rs)%nat ->
  (forall i r, (j <= i < j1)%nat -> rs !! i = Some r -> passed r) ->
  scan rs j1 s = scan rs j s.
Proof.
  intros [Hj Hlen] Hpass. induction j1 as [|j1 IH].
  { by replace j with 0%nat by lia. }
  destruct (decide (j = S j1)) as [->|Hne]; [done|].
  simpl. destruct (rs !! j1) as [r|] eqn:Hr.
  - destruct (Hpass j1 r) as [Hc Hf]; [lia|done|].
    rewrite decide_False by done. rewrite Hf.
    apply IH; [lia|lia|]. intros i r' Hi. apply Hpass. lia.
  - apply lookup_ge_None in Hr. lia.
Qed.

(** The scan fills the nearest row that is not walked past, when that
    row is a delete row with an empty right slot. *)
Lemma merge_fill rs s j r :
  rs !! j = Some r ->
  row_type r <> Rcontext ->
  fillable r = true ->
  (forall i r', (j < i)%nat -> rs !! i = Some r' -> passed r') ->
  merge rs s = Some (<[j := setRight r s]> rs).
Proof.
  intros Hr Hc Hf Hpass. unfold merge.
  pose proof (lookup_lt_Some _ _ _ Hr) as Hlt.
  rewrite (scan_skip rs s (S j)); [|lia|].
  - simpl. rewrite Hr, decide_False by done. by rewrite Hf.
  - intros i r' Hi. apply Hpass. lia.
Qed.

(** Without such a row the scan changes nothing. *)
Lemma merge_none rs s :
  Forall passed rs -> merge rs s = None.
Proof.
  intros Hall. unfold merge. rewrite (scan_skip rs s 0); [done|lia|].
  intros i r _ Hr. eapply Forall_lookup_1; eauto.
Qed.

(** The scan never goes past a context row. *)
Lemma scan_after_context pre c suf s j :
  row_type c = Rcontext ->
  (j <= length suf)%nat ->
  scan (pre ++ c :: suf) (S (length pre) + j) s =
  (fun suf' => pre ++ c :: suf') <$> scan suf j s.
Proof.
  intros Hc. induction j as [|j IH]; intros Hj.
  { rewrite Nat.add_0_r. simpl. rewrite list_lookup_middle by done.
    by rewrite decide_True. }
  replace (S (length pre) + S j)%nat with (S (S (length pre) + j)) by lia.
  cbn [scan].
  replace (S (length pre) + j)%nat with (length pre + S j)%nat by lia.
  rewrite lookup_app_r by lia.
  replace (length pre + S j - length pre)%nat with (S j) by lia.
  cbn [lookup list_lookup].
  change (list_lookup j suf) with (suf !! j).
  destruct (suf !! j) as [r|] eqn:Hr; [|done].
  destruct (decide (row_type r = Rcontext)); [done|].
  destruct (fillable r).
  - simpl. f_equal. rewrite insert_app_r_alt by lia.
    replace (length pre + S j - length pre)%nat with (S j) by lia. done.
  - replace (length pre + S j)%nat with (S (length pre) + j)%nat by lia.
    apply IH. lia.
Qed.
End Scan.

(** C5.  A context row stops the backward scan: whatever the rows before
    it are, an addition is merged only into the rows after the most recent
    context row, the rows up to it are left as they are, and with nothing
    after the context row nothing is merged.  On the lines [-A], [ B],
    [+C] this gives three rows, A and C unmerged. *)
Theorem context_row_stops_merge (pre suf : list Row) (c : Row) (s : Side) :
  row_type c = Rcontext ->
  Split.merge (pre ++ c :: suf) s = (fun suf' => pre ++ c :: suf') <$> Split.merge suf s
  /\ Split.merge (pre ++ [c]) s = None
  /\ (forall (hd : string) (o n : Z),
        SplitHunk (mkHunk hd [mkLine "-A" delete; mkLine " B" context; mkLine "+C" add] o n) =
        [mkRow Rchange (Some (mkSide o "-A" (Some delete))) None;
         mkRow Rcontext (Some (mkSide (o + 1) " B" None)) (Some (mkSide n " B" None));
         mkRow Rchange None (Some (mkSide (n + 1) "+C" (Some add)))]).
Proof.
  intros Hc.
  assert (forall suf0,
      Split.merge (pre ++ c :: suf0) s =
      (fun suf' => pre ++ c :: suf') <$> Split.merge suf0 s) as Hgen.
  { intros suf0. unfold Split.merge.
    rewrite length_app. cbn [length].
    replace (length pre + S (length suf0))%nat with (S (length pre) + length suf0)%nat by lia.
    by apply scan_after_context. }
  split_and!; [apply Hgen|by rewrite Hgen|].
  intros hd o n. reflexivity.
Qed.

Lemma context_row_stops_merge_witness :
  Split.merge
    ([mkRow Rchange (Some (mkSide 1 "-A" (Some delete))) None]
       ++ mkRow Rcontext (Some (mkSide 2 " B" None)) (Some (mkSide 1 " B" None)) :: [])
    (mkSide 2 "+C" (Some add)) = None.
Proof.
  apply (context_row_stops_merge
           [mkRow Rchange (Some (mkSide 1 "-A" (Some delete))) None] []
           (mkRow Rcontext (Some (mkSide 2 " B" None)) (Some (mkSide 1 " B" None)))
           (mkSide 2 "+C" (Some add))).
  reflexivity.
Defined.

(** ** The rows of a hunk *)

Section Rows.
Import Split.

Lemma scan_Some_inv rs s j1 rs' :
  scan rs j1 s = Some rs' ->
  exists j r,
    (j < j1)%nat /\ rs !! j = Some r /\ row_type r <> Rcontext
    /\ fillable r = true /\ rs' = <[j := setRight r s]> rs
    /\ (forall i r', (j < i < j1)%nat -> rs !! i = Some r' -> passed r').
Proof.
  induction j1 as [|j1 IH]; [done|]. simpl.
  destruct (rs !! j1) as [r|] eqn:Hr; [|done].
  destruct (decide (row_type r = Rcontext)) as [|Hc]; [done|].
  destruct (fillable r) eqn:Hf.
  - intros [= <-]. exists j1, r. split_and!; try done; try lia.
  - intros (j & r0 & Hlt & H1 & H2 & H3 & H4 & H5)%IH.
    exists j, r0. split_and!; try done; try lia.
    intros i r' Hi Hr'.
    destruct (decide (i = j1)) as [->|]; [by simplify_eq|].
    eapply (H5 i); [lia|done].
Qed.

Lemma fillable_right r : fillable r = true -> right r = None.
Proof. unfold fillable. destruct (left r), (right r); simpl; try done. by rewrite andb_false_r. Qed.

Lemma fillable_left r :
  fillable r = true -> exists l, left r = Some l /\ side_type l = Some delete.
Proof.
  unfold fillable. destruct (left r) as [l|]; [|done].
  intros [H _]%andb_prop. apply bool_decide_eq_true in H. eauto.
Qed.

(** What one add line does to the rows. *)
Lemma step_add st line :
  type line = add ->
  let s := mkSide (newLineCounter st) (content line) (Some add) in
  oldLineCounter (step st line) = oldLineCounter st
  /\ newLineCounter (step st line) = newLineCounter st + 1
  /\ (rows (step st line) = rows st ++ [mkRow Rchange None (Some s)]
      \/ exists j r,
           rows st !! j = Some r /\ row_type r <> Rcontext /\ fillable r = true
           /\ rows (step st line) = <[j := setRight r s]> (rows st)
           /\ (forall i r', (j < i)%nat -> rows st !! i = Some r' -> passed r')).
Proof.
  intros Ht s. unfold step. rewrite Ht. fold s.
  destruct (merge (rows st) s) as [rs'|] eqn:Hm; [|by auto].
  split_and!; [done|done|right].
  apply scan_Some_inv in Hm as (j & r & Hlt & H1 & H2 & H3 & H4 & H5).
  exists j, r. split_and!; try done.
  intros i r' Hi Hr'. eapply (H5 i); [|done].
  apply lookup_lt_Some in Hr'. lia.
Qed.

Lemma rowInvariant_step st line :
  Forall rowInvariant (rows st) -> Forall rowInvariant (rows (step st line)).
Proof.
  intros Hinv. destruct (type line) eqn:Ht.
  - unfold step. rewrite Ht. simpl. apply Forall_app. split; [done|].
    constructor; [|done]. unfold rowInvariant. simpl. eauto.
  - destruct (step_add st line Ht) as (_ & _ & [->|(j & r & Hr & Hc & Hf & -> & _)]).
    + apply Forall_app. split; [done|]. constructor; [|done].
      unfold rowInvariant. simpl. eauto.
    + apply Forall_insert; [done|]. unfold rowInvariant.
      simpl. destruct (row_type r); [done|]. right. eauto.
  - unfold step. rewrite Ht. simpl. apply Forall_app. split; [done|].
    constructor; [|done]. unfold rowInvariant. simpl. eauto.
  - unfold step. by rewrite Ht.
Qed.

Lemma rowInvariant_loop ls : forall st,
  Forall rowInvariant (rows st) -> Forall rowInvariant (rows (loop ls st)).
Proof.
  induction ls as [|l ls IH]; intros st Hinv; [done|].
  apply IH. by apply rowInvariant_step.
Qed.

(** *** No row is lost and no filled slot is rewritten *)

Lemma keeps_refl rs : keeps rs rs.
Proof. intros j r Hr. eauto. Qed.

Lemma keeps_trans rs1 rs2 rs3 : keeps rs1 rs2 -> keeps rs2 rs3 -> keeps rs1 rs3.
Proof.
  intros H12 H23 j r Hr.
  destruct (H12 j r Hr) as (r2 & Hr2 & Ht2 & Hl2 & Hs2).
  destruct (H23 j r2 Hr2) as (r3 & Hr3 & Ht3 & Hl3 & Hs3).
  exists r3. repeat split; try congruence. auto.
Qed.

Lemma keeps_app rs tl : keeps rs (rs ++ tl).
Proof. intros j r Hr. exists r. by rewrite (lookup_app_l_Some _ _ _ r). Qed.

Lemma keeps_fill rs j r s :
  rs !! j = Some r -> fillable r = true -> keeps rs (<[j := setRight r s]> rs).
Proof.
  intros Hr Hf i r0 Hr0. destruct (decide (i = j)) as [->|Hne].
  - exists (setRight r s). rewrite list_lookup_insert_eq by by eapply lookup_lt_Some.
    simplify_eq. repeat split; try done.
    intros s'. by rewrite (fillable_right _ Hf).
  - exists r0. by rewrite list_lookup_insert_ne.
Qed.

Lemma keeps_step st line : keeps (rows st) (rows (step st line)).
Proof.
  destruct (type line) eqn:Ht.
  - unfold step. rewrite Ht. apply keeps_app.
  - destruct (step_add st line Ht) as (_ & _ & [->|(j & r & Hr & Hc & Hf & -> & _)]).
    + apply keeps_app.
    + by apply keeps_fill.
  - unfold step. rewrite Ht. apply keeps_app.
  - unfold step. rewrite Ht. apply keeps_refl.
Qed.

Lemma keeps_loop ls : forall st, keeps (rows st) (rows (loop ls st)).
Proof.
  induction ls as [|l ls IH]; intros st; [apply keeps_refl|].
  eapply keeps_trans; [apply keeps_step | apply IH].
Qed.

(** *** Every deletion and every addition lands in one slot *)

Lemma omap_fill {B} (f : Row -> option B) (rs : list Row) (j : nat) r r' :
  rs !! j = Some r ->
  omap f (<[j := r']> rs) =
  omap f (take j rs) ++ from_option (fun x => [x]) [] (f r') ++ omap f (drop (S j) rs).
Proof.
  intros Hr. pose proof (lookup_lt_Some _ _ _ Hr) as Hlt.
  rewrite insert_take_drop by done.
  rewrite omap_app. f_equal. cbn [omap list_omap].
  by destruct (f r').
Qed.

Lemma omap_middle {B} (f : Row -> option B) (rs : list Row) (j : nat) r :
  rs !! j = Some r ->
  omap f rs =
  omap f (take j rs) ++ from_option (fun x => [x]) [] (f r) ++ omap f (drop (S j) rs).
Proof.
  intros Hr. rewrite <-(omap_fill f rs j r r Hr). by rewrite list_insert_id.
Qed.

Lemma leftDeletes_fill (rs : list Row) (j : nat) r s :
  rs !! j = Some r ->
  omap leftDelete (<[j := setRight r s]> rs) = omap leftDelete rs.
Proof.
  intros Hr. rewrite (omap_fill _ _ _ _ _ Hr), (omap_middle leftDelete rs j r Hr). done.
Qed.

Lemma rightAdds_fill (rs : list Row) (j : nat) r s :
  rs !! j = Some r -> fillable r = true -> side_type s = Some add ->
  omap rightAdd (<[j := setRight r s]> rs) ≡ₚ omap rightAdd rs ++ [s].
Proof.
  intros Hr Hf Hs.
  rewrite (omap_fill _ _ _ _ _ Hr), (omap_middle rightAdd rs j r Hr).
  unfold rightAdd at 2 5. cbn [right setRight]. rewrite (fillable_right r Hf).
  rewrite decide_True by done. cbn [from_option].
  rewrite app_nil_l. rewrite <-app_assoc.
  apply Permutation_app_head. apply Permutation_app_comm.
Qed.

Lemma sides_step st line :
  omap leftDelete (rows (step st line)) =
    omap leftDelete (rows st) ++ deleteSides [line] (oldLineCounter st)
  /\ omap rightAdd (rows (step st line)) ≡ₚ
       omap rightAdd (rows st) ++ addSides [line] (newLineCounter st).
Proof.
  destruct (type line) eqn:Ht.
  - unfold step. cbn [deleteSides addSides]. rewrite Ht. cbn [rows].
    rewrite !omap_app. done.
  - destruct (step_add st line Ht) as (_ & _ & [->|(j & r & Hr & Hc & Hf & -> & _)]);
      cbn [deleteSides addSides]; rewrite Ht.
    + rewrite !omap_app. done.
    + rewrite leftDeletes_fill, app_nil_r by done. split; [done|].
      by apply rightAdds_fill.
  - unfold step. cbn [deleteSides addSides]. rewrite Ht. cbn [rows].
    rewrite !omap_app. done.
  - unfold step. cbn [deleteSides addSides]. rewrite Ht, !app_nil_r. done.
Qed.

Lemma counters_step st line :
  oldLineCounter (step st line) =
    match type line with
    | context | delete => oldLineCounter st + 1
    | _ => oldLineCounter st
    end
  /\ newLineCounter (step st line) =
       match type line with
       | context | add => newLineCounter st + 1
       | _ => newLineCounter st
       end.
Proof.
  unfold step. destruct (type line); try done.
  by destruct (merge _ _).
Qed.

Lemma sides_loop ls : forall st,
  omap leftDelete (rows (loop ls st)) =
    omap leftDelete (rows st) ++ deleteSides ls (oldLineCounter st)
  /\ omap rightAdd (rows (loop ls st)) ≡ₚ
       omap rightAdd (rows st) ++ addSides ls (newLineCounter st).
Proof.
  induction ls as [|l ls IH]; intros st.
  { simpl. by rewrite !app_nil_r. }
  change (loop (l :: ls) st) with (loop ls (step st l)).
  destruct (IH (step st l)) as [-> ->].
  destruct (sides_step st l) as [-> ->].
  destruct (counters_step st l) as [-> ->].
  rewrite <-!app_assoc. cbn [deleteSides addSides].
  destruct (type l); cbn [app]; done.
Qed.

Lemma contextPairs_fill (rs : list Row) (j : nat) r s :
  rs !! j = Some r -> row_type r <> Rcontext ->
  omap contextPair (<[j := setRight r s]> rs) = omap contextPair rs.
Proof.
  intros Hr Hc.
  rewrite (omap_fill _ _ _ _ _ Hr), (omap_middle contextPair rs j r Hr).
  unfold contextPair. cbn [row_type setRight]. by destruct (row_type r).
Qed.

Lemma contextPairs_step st line :
  omap contextPair (rows (step st line)) =
  omap contextPair (rows st)
    ++ contextSides [line] (oldLineCounter st) (newLineCounter st).
Proof.
  destruct (type line) eqn:Ht.
  - unfold step. cbn [contextSides]. rewrite Ht. cbn [rows]. by rewrite omap_app.
  - destruct (step_add st line Ht) as (_ & _ & [->|(j & r & Hr & Hc & Hf & -> & _)]);
      cbn [contextSides]; rewrite Ht.
    + by rewrite omap_app.
    + by rewrite contextPairs_fill, app_nil_r.
  - unfold step. cbn [contextSides]. rewrite Ht. cbn [rows]. by rewrite omap_app.
  - unfold step. cbn [contextSides]. by rewrite Ht, app_nil_r.
Qed.

Lemma contextPairs_loop ls : forall st,
  omap contextPair (rows (loop ls st)) =
  omap contextPair (rows st)
    ++ contextSides ls (oldLineCounter st) (newLineCounter st).
Proof.
  induction ls as [|l ls IH]; intros st.
  { simpl. by rewrite app_nil_r. }
  change (loop (l :: ls) st) with (loop ls (step st l)).
  rewrite IH, contextPairs_step.
  destruct (counters_step st l) as [-> ->].
  rewrite <-app_assoc. cbn [contextSides].
  destruct (type l); cbn [app]; done.
Qed.
End Rows.

(** C8.  Every row of every hunk satisfies the row invariant: a context
    row has both sides, with the same content; a change row has at least
    one side.  The two numbers of a context row are tracked apart: read
    down the rows, the context rows are the context lines of the hunk,
    the left number counted from [oldStart] over context and delete lines,
    the right number from [newStart] over context and add lines. *)
Theorem rows_satisfy_invariant (hunk : Hunk) :
  Forall rowInvariant (SplitHunk hunk)
  /\ omap contextPair (SplitHunk hunk) =
       contextSides (lines hunk) (oldStart hunk) (newStart hunk).
Proof.
  unfold SplitHunk. split.
  - apply rowInvariant_loop. constructor.
  - by rewrite contextPairs_loop.
Qed.

(** C10.  For every hunk: the left sides that are deletions, read down the
    rows, are exactly the delete lines of the hunk in their order, each
    once; the right sides that are additions are exactly the add lines,
    each once; an add line either appends a row or fills the nearest
    earlier delete row whose right slot is empty, no row lying between
    that row and the end being such a row or a context row; and what the
    loop has put in a row stays: every row built after a prefix of the
    lines is still there at the end with the same left side and, if its
    right slot was filled, the same right side. *)
Theorem every_line_lands_in_one_slot (hunk : Hunk) :
  omap leftDelete (SplitHunk hunk) = deleteSides (lines hunk) (oldStart hunk)
  /\ omap rightAdd (SplitHunk hunk) ≡ₚ addSides (lines hunk) (newStart hunk)
  /\ (forall l1 line l2,
        lines hunk = l1 ++ line :: l2 -> type line = add ->
        let st := Split.loop l1 (Split.init hunk) in
        let s := mkSide (Split.newLineCounter st) (content line) (Some add) in
        Split.rows (Split.step st line) = Split.rows st ++ [mkRow Rchange None (Some s)]
        \/ exists j r l,
             Split.rows st !! j = Some r
             /\ left r = Some l /\ side_type l = Some delete /\ right r = None
             /\ Split.rows (Split.step st line) = <[j := Split.setRight r s]> (Split.rows st)
             /\ (forall i r', (j < i)%nat -> Split.rows st !! i = Some r' -> passed r'))
  /\ (forall l1 l2,
        lines hunk = l1 ++ l2 ->
        keeps (Split.rows (Split.loop l1 (Split.init hunk))) (SplitHunk hunk)).
Proof.
  unfold SplitHunk.
  destruct (sides_loop (lines hunk) (Split.init hunk)) as [H1 H2].
  split_and!; [done|done| |].
  - intros l1 line l2 _ Ht. cbv zeta.
    destruct (step_add (Split.loop l1 (Split.init hunk)) line Ht)
      as (_ & _ & [H|(j & r & Hr & Hc & Hf & H & Hp)]); [by left|right].
    destruct (fillable_left r Hf) as (l & Hl & Hd).
    exists j, r, l. split_and!; try done.
    by apply fillable_right.
  - intros l1 l2 ->. rewrite loop_split_app. apply keeps_loop.
Qed.

Lemma every_line_lands_in_one_slot_witness :
  omap leftDelete (SplitHunk hunk21) =
    [mkSide 1 "-a" (Some delete); mkSide 2 "-b" (Some delete)]
  /\ omap rightAdd (SplitHunk hunk21) ≡ₚ [mkSide 1 "+x" (Some add)]
  /\ keeps (Split.rows (Split.loop [mkLine "-a" delete; mkLine "-b" delete] (Split.init hunk21)))
           (SplitHunk hunk21).
Proof.
  destruct (every_line_lands_in_one_slot hunk21) as (H1 & H2 & _ & H4).
  split_and!; [exact H1|exact H2|].
  apply (H4 [mkLine "-a" delete; mkLine "-b" delete] [mkLine "+x" add]).
  reflexivity.
Defined.

(** ** A block of deletions followed by a block of additions *)

Section Blocks.
Import Split.

Lemma pairedRows_length o n dl al : length (pairedRows o n dl al) = length dl.
Proof. apply length_imap. Qed.

Lemma pairedRows_lookup o n dl al i d :
  dl !! i = Some d ->
  pairedRows o n dl al !! i =
  Some (mkRow Rchange
              (Some (mkSide (o + Z.of_nat i) (content d) (Some delete)))
              ((fun a => mkSide (n + Z.of_nat (length dl - 1 - i)) (content a) (Some add))
                 <$> al !! (length dl - 1 - i)%nat)).
Proof. intros Hd. unfold pairedRows. rewrite list_lookup_imap, Hd. done. Qed.

Lemma pairedRows_lookup_inv o n dl al i r :
  pairedRows o n dl al !! i = Some r ->
  exists d, dl !! i = Some d /\
    r = mkRow Rchange
              (Some (mkSide (o + Z.of_nat i) (content d) (Some delete)))
              ((fun a => mkSide (n + Z.of_nat (length dl - 1 - i)) (content a) (Some add))
                 <$> al !! (length dl - 1 - i)%nat).
Proof.
  unfold pairedRows. rewrite list_lookup_imap.
  destruct (dl !! i) as [d|]; [|done]. intros [= <-]. eauto.
Qed.

(** The deletions alone: one row each, right slot empty. *)
Lemma deletes_loop o n dl :
  Forall (fun l => type l = delete) dl ->
  loop dl (mkState [] o n) =
  mkState (pairedRows o n dl []) (o + Z.of_nat (length dl)) n.
Proof.
  induction dl as [|d dl IH] using rev_ind; intros Hall.
  { simpl. f_equal. lia. }
  rewrite Forall_app, Forall_singleton in Hall. destruct Hall as [Hall Hd].
  rewrite loop_split_app. rewrite (IH Hall).
  unfold loop, step. simpl. rewrite Hd. simpl. f_equal.
  - apply list_eq. intros i.
    destruct (decide (i < length dl)%nat) as [Hlt|Hge].
    + destruct (lookup_lt_is_Some_2 dl i Hlt) as [d' Hd'].
      rewrite lookup_app_l by by rewrite pairedRows_length.
      rewrite (pairedRows_lookup _ _ _ _ _ d') by done.
      rewrite (pairedRows_lookup _ _ _ _ _ d') by by apply lookup_app_l_Some.
      by rewrite !lookup_nil.
    + rewrite lookup_app_r by (rewrite pairedRows_length; lia).
      rewrite pairedRows_length.
      destruct (decide (i = length dl)) as [->|Hne].
      * rewrite Nat.sub_diag.
        rewrite (pairedRows_lookup _ _ _ _ _ d) by by rewrite list_lookup_middle.
        by rewrite lookup_nil.
      * rewrite !(proj2 (lookup_ge_None _ _)); [done| |].
        -- rewrite pairedRows_length, length_app. simpl. lia.
        -- simpl. lia.
  - rewrite length_app. simpl. lia.
Qed.

(** Then the additions, as long as there are no more of them than
    deletions: each fills the lowest empty right slot. *)
Lemma adds_loop o n o' dl al :
  Forall (fun l => type l = add) al ->
  (length al <= length dl)%nat ->
  loop al (mkState (pairedRows o n dl []) o' n) =
  mkState (pairedRows o n dl al) o' (n + Z.of_nat (length al)).
Proof.
  induction al as [|a al IH] using rev_ind; intros Hall Hlen.
  { simpl. f_equal. lia. }
  rewrite Forall_app, Forall_singleton in Hall. destruct Hall as [Hall Ha].
  rewrite length_app in Hlen. simpl in Hlen.
  rewrite loop_split_app. rewrite (IH Hall) by lia.
  unfold loop. cbn [fold_left]. unfold step. rewrite Ha.
  cbn [rows oldLineCounter newLineCounter].
  set (j := (length dl - 1 - length al)%nat).
  destruct (lookup_lt_is_Some_2 dl j) as [d Hd]; [lia|].
  pose proof (pairedRows_lookup o n dl al j d Hd) as Hrow.
  rewrite (proj2 (lookup_ge_None al (length dl - 1 - j)%nat)) in Hrow by lia.
  erewrite (merge_fill _ _ j); [| exact Hrow | done | done |].
  - f_equal.
    + apply list_eq. intros i.
      destruct (dl !! i) as [d'|] eqn:Hd'.
      * pose proof (lookup_lt_Some _ _ _ Hd') as Hi.
        rewrite (pairedRows_lookup _ _ _ _ _ d' Hd').
        destruct (decide (i = j)) as [->|Hne].
        -- rewrite list_lookup_insert_eq by (rewrite pairedRows_length; lia).
           replace (length dl - 1 - j)%nat with (length al) by lia.
           rewrite list_lookup_middle by done. simplify_eq. done.
        -- rewrite list_lookup_insert_ne by done.
           rewrite (pairedRows_lookup _ _ _ _ _ d' Hd').
           destruct (decide (length dl - 1 - i < length al)%nat).
           ++ by rewrite lookup_app_l.
           ++ rewrite !(proj2 (lookup_ge_None _ _)); [done| |lia].
              rewrite length_app. simpl. lia.
      * pose proof (proj1 (lookup_ge_None _ _) Hd') as Hi.
        rewrite !(proj2 (lookup_ge_None _ _)); [done| |].
        -- by rewrite pairedRows_length.
        -- by rewrite length_insert, pairedRows_length.
    + rewrite length_app. simpl. lia.
  - intros i r' Hi (d' & Hd' & ->)%pairedRows_lookup_inv.
    pose proof (lookup_lt_Some _ _ _ Hd') as Hi'.
    destruct (lookup_lt_is_Some_2 al (length dl - 1 - i)%nat) as [a' Ha']; [lia|].
    rewrite Ha'. done.
Qed.

(** The rows of a hunk made of such two blocks. *)
Lemma blocks_rows hunk dl al :
  lines hunk = dl ++ al ->
  Forall (fun l => type l = delete) dl ->
  Forall (fun l => type l = add) al ->
  (length al <= length dl)%nat ->
  SplitHunk hunk = pairedRows (oldStart hunk) (newStart hunk) dl al.
Proof.
  intros Hl Hd Ha Hlen. unfold SplitHunk, init. rewrite Hl.
  rewrite loop_split_app, deletes_loop, adds_loop by done. done.
Qed.
End Blocks.

(** C4.  A hunk of [k] deletions followed by [k] additions has [k] rows,
    every one a change row with a deletion on the left and an addition on
    the right; no row has an empty side. *)
Theorem equal_blocks_pair_every_row (hunk : Hunk) (dl al : list DiffLine) :
  lines hunk = dl ++ al ->
  Forall (fun l => type l = delete) dl ->
  Forall (fun l => type l = add) al ->
  length dl = length al ->
  length (SplitHunk hunk) = length dl
  /\ Forall fullyPaired (SplitHunk hunk).
Proof.
  intros Hl Hd Ha Hlen.
  rewrite (blocks_rows hunk dl al) by (done || lia).
  split; [apply pairedRows_length|].
  apply Forall_lookup_2. intros i r (d & Hdi & ->)%pairedRows_lookup_inv.
  pose proof (lookup_lt_Some _ _ _ Hdi) as Hi.
  destruct (lookup_lt_is_Some_2 al (length dl - 1 - i)%nat) as [a Hai]; [lia|].
  rewrite Hai. unfold fullyPaired. simpl. eauto 10.
Qed.

Lemma equal_blocks_pair_every_row_witness :
  length (SplitHunk (mkHunk "@@ -1,2 +1,2 @@"
            [mkLine "-a" delete; mkLine "-b" delete; mkLine "+x" add; mkLine "+y" add] 1 1))
  = 2%nat
  /\ Forall fullyPaired
       (SplitHunk (mkHunk "@@ -1,2 +1,2 @@"
          [mkLine "-a" delete; mkLine "-b" delete; mkLine "+x" add; mkLine "+y" add] 1 1)).
Proof.
  apply (equal_blocks_pair_every_row
           (mkHunk "@@ -1,2 +1,2 @@"
              [mkLine "-a" delete; mkLine "-b" delete; mkLine "+x" add; mkLine "+y" add] 1 1)
           [mkLine "-a" delete; mkLine "-b" delete]
           [mkLine "+x" add; mkLine "+y" add]).
  - reflexivity.
  - repeat constructor.
  - repeat constructor.
  - reflexivity.
Defined.

(** C1, as the code has it.  A hunk of [m] deletions followed by [n < m]
    additions has [m] change rows, each with its deletion on the left; the
    FIRST [m - n] rows have an empty right slot and the LAST [n] rows are
    fully paired, the scan filling from the bottom of the block: the
    addition of index [k] is the right side of row [m - 1 - k]. *)
Theorem longer_delete_block_pairs_last_rows (hunk : Hunk) (dl al : list DiffLine) :
  lines hunk = dl ++ al ->
  Forall (fun l => type l = delete) dl ->
  Forall (fun l => type l = add) al ->
  (length al < length dl)%nat ->
  length (SplitHunk hunk) = length dl
  /\ (forall i r, SplitHunk hunk !! i = Some r ->
        if decide (i < length dl - length al)%nat then leftOnly r else fullyPaired r)
  /\ (forall k a, al !! k = Some a ->
        exists r, SplitHunk hunk !! (length dl - 1 - k)%nat = Some r
                  /\ right r = Some (mkSide (newStart hunk + Z.of_nat k) (content a) (Some add))).
Proof.
  intros Hl Hd Ha Hlen.
  rewrite (blocks_rows hunk dl al) by (done || lia).
  split_and!; [apply pairedRows_length| |].
  - intros i r (d & Hdi & ->)%pairedRows_lookup_inv.
    pose proof (lookup_lt_Some _ _ _ Hdi) as Hi.
    case_decide as Hc.
    + rewrite (proj2 (lookup_ge_None al _)) by lia.
      unfold leftOnly. simpl. eauto 10.
    + destruct (lookup_lt_is_Some_2 al (length dl - 1 - i)%nat) as [a Hai]; [lia|].
      rewrite Hai. unfold fullyPaired. simpl. eauto 10.
  - intros k a Hk. pose proof (lookup_lt_Some _ _ _ Hk) as Hlt.
    destruct (lookup_lt_is_Some_2 dl (length dl - 1 - k)%nat) as [d Hdk]; [lia|].
    eexists. split; [by apply pairedRows_lookup|]. simpl.
    replace (length dl - 1 - (length dl - 1 - k))%nat with k by lia.
    by rewrite Hk.
Qed.

Lemma longer_delete_block_pairs_last_rows_witness :
  length (SplitHunk hunk21) = 2%nat
  /\ (forall i r, SplitHunk hunk21 !! i = Some r ->
        if decide (i < 2 - 1)%nat then leftOnly r else fullyPaired r)
  /\ (forall k a, [mkLine "+x" add] !! k = Some a ->
        exists r, SplitHunk hunk21 !! (2 - 1 - k)%nat = Some r
                  /\ right r = Some (mkSide (1 + Z.of_nat k) (content a) (Some add))).
Proof.
  apply (longer_delete_block_pairs_last_rows hunk21
           [mkLine "-a" delete; mkLine "-b" delete] [mkLine "+x" add]).
  - reflexivity.
  - repeat constructor.
  - repeat constructor.
  - simpl. lia.
Defined.

(** C1, as the specification has it, fails: with two deletions and one
    addition the first row is not the paired one; its right slot is empty
    and the addition sits in the second row. *)
Lemma first_rows_are_not_the_paired_ones :
  SplitHunk hunk21 =
    [mkRow Rchange (Some (mkSide 1 "-a" (Some delete))) None;
     mkRow Rchange (Some (mkSide 2 "-b" (Some delete))) (Some (mkSide 1 "+x" (Some add)))]
  /\ ~ (forall i r, SplitHunk hunk21 !! i = Some r ->
          if decide (i < 1)%nat then fullyPaired r else right r = None).
Proof.
  split; [reflexivity|].
  intros H. specialize (H 0%nat _ eq_refl). simpl in H.
  destruct H as (_ & _ & s & Hs & _). discriminate Hs.
Qed.

(** ** [SplitHunk] on the store *)

Section Store.
Local Abbreviation rowsOf := SplitHunk (only parsing).
Import Js Repr.
Local Open Scope js_scope.

Implicit Types (h : heap) (v : val) (l : loc).

(** *** Running the primitives *)

Lemma bind_run {A B} (m : M A) (k : A -> M B) h a h' :
  m h = Some (a, h') -> bind m k h = k a h'.
Proof. unfold bind. by intros ->. Qed.

Lemma getField_run h l fs f :
  h !! l = Some (Obj fs) ->
  getField (VRef l) f h = Some (default VUndefined (fs !! f), h).
Proof. unfold getField. by intros ->. Qed.

Lemma getField_run_Some h l fs f x :
  h !! l = Some (Obj fs) -> fs !! f = Some x ->
  getField (VRef l) f h = Some (x, h).
Proof. intros H1 H2. by rewrite (getField_run _ _ _ _ H1), H2. Qed.

Lemma setField_run h l fs f x :
  h !! l = Some (Obj fs) ->
  setField (VRef l) f x h = Some (tt, <[l := Obj (<[f := x]> fs)]> h).
Proof. unfold setField. by intros ->. Qed.

Lemma arrLength_run h l vs :
  h !! l = Some (Arr vs) -> arrLength (VRef l) h = Some (length vs, h).
Proof. unfold arrLength. by intros ->. Qed.

Lemma arrGet_run h l vs i x :
  h !! l = Some (Arr vs) -> vs !! i = Some x ->
  arrGet (VRef l) i h = Some (x, h).
Proof. unfold arrGet. by intros -> ->. Qed.

Lemma arrPush_run h l vs x :
  h !! l = Some (Arr vs) ->
  arrPush (VRef l) x h = Some (tt, <[l := Arr (vs ++ [x])]> h).
Proof. unfold arrPush. by intros ->. Qed.

Lemma alloc_run o h : alloc o h = Some (VRef (length h), h ++ [o]).
Proof. done. Qed.

(** *** Reading back *)

Lemma strictEqStr_true v s : strictEqStr v s = true -> v = VStr s.
Proof.
  destruct v; try done. simpl. by intros ->%String.eqb_eq.
Qed.

Lemma readType_inv v t : readType v = Some t -> v = VStr (typeName t).
Proof.
  unfold readType.
  destruct (strictEqStr v "context") eqn:E1;
    [intros [= <-]; by apply strictEqStr_true|].
  destruct (strictEqStr v "add") eqn:E2;
    [intros [= <-]; by apply strictEqStr_true|].
  destruct (strictEqStr v "delete") eqn:E3;
    [intros [= <-]; by apply strictEqStr_true|].
  destruct (strictEqStr v "no-newline") eqn:E4;
    [intros [= <-]; by apply strictEqStr_true|].
  done.
Qed.

Lemma readType_typeName t : readType (VStr (typeName t)) = Some t.
Proof. by destruct t. Qed.

Lemma readRowType_name t : readRowType (VStr (rowTypeName t)) = Some t.
Proof. by destruct t. Qed.

Lemma fieldsAt_Some h v fs :
  fieldsAt h v = Some fs <-> exists l, v = VRef l /\ h !! l = Some (Obj fs).
Proof.
  unfold fieldsAt. split.
  - destruct v as [| | | |l]; try done.
    destruct (h !! l) as [[fs'|]|] eqn:E; try done. intros [= <-]. eauto.
  - intros (l & -> & ->). done.
Qed.

Lemma elemsAt_Some h v vs :
  elemsAt h v = Some vs <-> exists l, v = VRef l /\ h !! l = Some (Arr vs).
Proof.
  unfold elemsAt. split.
  - destruct v as [| | | |l]; try done.
    destruct (h !! l) as [[|vs']|] eqn:E; try done. intros [= <-]. eauto.
  - intros (l & -> & ->). done.
Qed.

Lemma readStr_Some o s : readStr o = Some s <-> o = Some (VStr s).
Proof. unfold readStr. split; [|by intros ->]. by repeat case_match; intros [= <-]. Qed.

Lemma readNum_Some o n : readNum o = Some n <-> o = Some (VNum n).
Proof. unfold readNum. split; [|by intros ->]. by repeat case_match; intros [= <-]. Qed.

Lemma readLine_lineAt h v line : readLine h v = Some line -> lineAt h v line.
Proof.
  unfold readLine. intros H.
  apply bind_Some in H as (fs & (l & -> & Hl)%fieldsAt_Some & H).
  apply bind_Some in H as (c & Hc%readStr_Some & H).
  apply bind_Some in H as (t & Ht & H).
  apply bind_Some in Ht as (tv & Htv & ->%readType_inv).
  simplify_eq. by exists l, fs.
Qed.

Lemma readHunk_hunkAt h v hk : readHunk h v = Some hk -> hunkAt h v hk.
Proof.
  unfold readHunk. intros H.
  apply bind_Some in H as (fs & (l & -> & Hl)%fieldsAt_Some & H).
  apply bind_Some in H as (hd & Hhd%readStr_Some & H).
  apply bind_Some in H as (la & Hla & H).
  apply bind_Some in H as (vs & (lal & -> & Hlal)%elemsAt_Some & H).
  apply bind_Some in H as (ls & Hls & H).
  apply bind_Some in H as (o & Ho%readNum_Some & H).
  apply bind_Some in H as (n & Hn%readNum_Some & H).
  simplify_eq. exists l, fs, lal, vs. split_and!; try done. simpl.
  apply mapM_Some in Hls. eapply Forall2_impl; [done|].
  intros ??. apply readLine_lineAt.
Qed.

Lemma lineAt_readLine h v line : lineAt h v line -> readLine h v = Some line.
Proof.
  intros (l & fs & -> & Hl & Hc & Ht). unfold readLine.
  rewrite (proj2 (fieldsAt_Some _ _ _)) by eauto. simpl.
  rewrite Hc, Ht. simpl. rewrite readType_typeName. simpl. by destruct line.
Qed.

Lemma hunkAt_readHunk h v hk : hunkAt h v hk -> readHunk h v = Some hk.
Proof.
  intros (l & fs & la & vs & -> & Hl & Hhd & Hla & Ho & Hn & Hvs & Hall).
  unfold readHunk.
  rewrite (proj2 (fieldsAt_Some _ _ _)) by eauto. simpl.
  rewrite Hhd, Hla. simpl. rewrite Hvs. simpl.
  rewrite (proj2 (mapM_Some _ _ (lines hk))).
  - simpl. rewrite Ho, Hn. simpl. by destruct hk.
  - eapply Forall2_impl; [done|]. intros ??. apply lineAt_readLine.
Qed.

(** *** Objects that were there stay there *)

Lemma lineAt_mono h h' v line : h `prefix_of` h' -> lineAt h v line -> lineAt h' v line.
Proof.
  intros Hp (l & fs & -> & Hl & Hc & Ht). exists l, fs.
  split_and!; try done. by eapply prefix_lookup_Some.
Qed.

Lemma hunkAt_mono h h' v hk : h `prefix_of` h' -> hunkAt h v hk -> hunkAt h' v hk.
Proof.
  intros Hp (l & fs & la & vs & -> & Hl & Hhd & Hla & Ho & Hn & Hvs & Hall).
  exists l, fs, la, vs. split_and!; try done.
  - by eapply prefix_lookup_Some.
  - by eapply prefix_lookup_Some.
  - eapply Forall2_impl; [done|]. intros ??. by apply lineAt_mono.
Qed.

Lemma prefix_insert_ge h0 h l o :
  h0 `prefix_of` h -> (length h0 <= l)%nat -> h0 `prefix_of` <[l := o]> h.
Proof.
  intros [tl ->] Hl. rewrite insert_app_r_alt by done. by apply prefix_app_r.
Qed.

(** *** The fields of the literals *)

Lemma rowLit_type t a b : forall fs, rowLit t a b = Obj fs -> fs !! "type" = Some (VStr t).
Proof. intros fs [= <-]. by simplify_map_eq. Qed.

Lemma rowLit_left t a b : forall fs, rowLit t a b = Obj fs -> fs !! "left" = Some a.
Proof. intros fs [= <-]. by simplify_map_eq. Qed.

Lemma rowLit_right t a b : forall fs, rowLit t a b = Obj fs -> fs !! "right" = Some b.
Proof. intros fs [= <-]. by simplify_map_eq. Qed.

Lemma rowLit_set_right t a b x :
  forall fs, rowLit t a b = Obj fs -> Obj (<["right" := x]> fs) = rowLit t a x.
Proof.
  intros fs [= <-]. unfold rowLit. f_equal.
Qed.

Lemma sideObj_fields s :
  exists fs, sideObj s = Obj fs
             /\ fs !! "num" = Some (VNum (num s))
             /\ fs !! "content" = Some (VStr (side_content s))
             /\ fs !! "type" = (fun t => VStr (typeName t)) <$> side_type s
             /\ fs !! "left" = None.
Proof.
  unfold sideObj. destruct (side_type s) as [t|]; eexists; (split; [reflexivity|]);
    by simplify_map_eq.
Qed.

Lemma rowLit_not_side t a b s : rowLit t a b <> sideObj s.
Proof.
  intros H. destruct (sideObj_fields s) as (fs & Hfs & _ & _ & _ & Hleft).
  rewrite Hfs in H. apply rowLit_left in H. congruence.
Qed.

(** *** Sides and rows under allocation and under writes elsewhere *)

Lemma sideAt_app h tl v o : sideAt h v o -> sideAt (h ++ tl) v o.
Proof.
  destruct o as [s|]; [|done]. intros (l & -> & Hl). exists l.
  split; [done|]. by apply lookup_app_l_Some.
Qed.

Lemma sideAt_insert h w x v o :
  sideAt h v o -> (forall s, h !! w <> Some (sideObj s)) -> sideAt (<[w := x]> h) v o.
Proof.
  destruct o as [s|]; [|done]. intros (l & -> & Hl) Hw. exists l.
  split; [done|]. rewrite list_lookup_insert_ne; [done|]. intros ->. by eapply Hw.
Qed.

Lemma sideAt_new h s : sideAt (h ++ [sideObj s]) (VRef (length h)) (Some s).
Proof. exists (length h). split; [done|]. by rewrite list_lookup_middle. Qed.

Lemma rowAt_app h0 h tl v r : rowAt h0 h v r -> rowAt h0 (h ++ tl) v r.
Proof.
  intros (l & lv & rv & -> & Hge & Hl & Hlv & Hrv). exists l, lv, rv.
  split_and!; try done; [by apply lookup_app_l_Some|by apply sideAt_app..].
Qed.

Lemma rowAt_insert h0 h w x v r :
  rowAt h0 h v r -> v <> VRef w -> (forall s, h !! w <> Some (sideObj s)) ->
  rowAt h0 (<[w := x]> h) v r.
Proof.
  intros (l & lv & rv & -> & Hge & Hl & Hlv & Hrv) Hne Hw. exists l, lv, rv.
  split_and!; try done; [|by apply sideAt_insert..].
  rewrite list_lookup_insert_ne; [done|]. congruence.
Qed.

Lemma rowAt_lt h0 h v r : rowAt h0 h v r -> exists l, v = VRef l /\ (l < length h)%nat.
Proof.
  intros (l & lv & rv & -> & Hge & Hl & _). exists l. split; [done|].
  by eapply lookup_lt_Some.
Qed.

Lemma rowsAt_app h0 h tl ra rs : rowsAt h0 h ra rs -> rowsAt h0 (h ++ tl) ra rs.
Proof.
  intros (Hp & Hra & vs & Hvs & Hnd & Hall). split_and!; try done.
  - by apply prefix_app_r.
  - exists vs. split_and!; try done; [by apply lookup_app_l_Some|].
    eapply Forall2_impl; [done|]. intros ??. apply rowAt_app.
Qed.

(** [rows.push({ type, left, right })] *)
Lemma rowsAt_push h0 h ra rs r lv rv :
  rowsAt h0 h ra rs ->
  sideAt h lv (left r) -> sideAt h rv (right r) ->
  exists h',
    (row <- alloc (rowLit (rowTypeName (row_type r)) lv rv) ;;
     arrPush (VRef ra) row) h = Some (tt, h')
    /\ rowsAt h0 h' ra (rs ++ [r]).
Proof.
  intros (Hp & Hra & vs & Hvs & Hnd & Hall) Hlv Hrv.
  set (o := rowLit (rowTypeName (row_type r)) lv rv).
  pose proof (lookup_lt_Some _ _ _ Hvs) as Hlt.
  exists (<[ra := Arr (vs ++ [VRef (length h)])]> (h ++ [o])).
  split.
  { erewrite bind_run by apply alloc_run.
    erewrite arrPush_run; [done|]. by apply lookup_app_l_Some. }
  assert (forall s, (h ++ [o]) !! ra <> Some (sideObj s)) as Hnoside.
  { intros s. rewrite (lookup_app_l_Some _ _ _ _ Hvs).
    unfold sideObj. by destruct (side_type s). }
  split_and!; try done.
  { apply prefix_insert_ge; [by apply prefix_app_r|done]. }
  exists (vs ++ [VRef (length h)]). split_and!.
  - rewrite list_lookup_insert_eq; [done|]. rewrite length_app. simpl. lia.
  - apply NoDup_app. split_and!; [done| |apply NoDup_singleton].
    intros v Hv ->%list_elem_of_singleton.
    apply list_elem_of_lookup in Hv as [i Hi].
    destruct (Forall2_lookup_l _ _ _ _ _ Hall Hi) as (r' & _ & Hr').
    apply rowAt_lt in Hr' as (l & [= <-] & Hl). lia.
  - apply Forall2_app.
    + eapply Forall2_impl; [done|]. intros v r' Hr'.
      apply rowAt_insert; [by apply rowAt_app| |done].
      destruct Hr' as (l & ? & ? & -> & _ & Hl & _). intros [= ->].
      rewrite Hvs in Hl. done.
    + constructor; [|done]. exists (length h), lv, rv. split_and!; try done.
      * by apply prefix_length.
      * rewrite list_lookup_insert_ne by lia. by rewrite list_lookup_middle.
      * apply sideAt_insert; [by apply sideAt_app|done].
      * apply sideAt_insert; [by apply sideAt_app|done].
Qed.

(** *** The backward scan on the store *)

Lemma isDelete_test (o : option LineType) :
  strictEqStr (default VUndefined ((fun t => VStr (typeName t)) <$> o)) "delete"
  = bool_decide (o = Some delete).
Proof. by destruct o as [[]|]. Qed.

Lemma isContext_test (t : RowType) :
  strictEqStr (VStr (rowTypeName t)) "context" = bool_decide (t = Rcontext).
Proof. by destruct t. Qed.

(** The three tests of the loop body on a row that is not a context
    row: they leave the store alone and their outcome is [fillable]. *)
Lemma tests_run {B} h0 h l r (k : bool -> M B) :
  rowAt h0 h (VRef l) r ->
  (lf <- getField (VRef l) "left" ;;
   isDel <- (if isTruthy lf
             then lt <- getField lf "type" ;; ret (strictEqStr lt "delete")
             else ret false) ;;
   free <- (if isDel
            then rt <- getField (VRef l) "right" ;; ret (negb (isTruthy rt))
            else ret false) ;;
   k free) h
  = k (Split.fillable r) h.
Proof.
  intros (l' & lv & rv & [= <-] & _ & Hl & Hlv & Hrv).
  destruct (rowLit (rowTypeName (row_type r)) lv rv) as [fs|] eqn:E; [|done].
  erewrite bind_run
    by (eapply getField_run_Some; [exact Hl | by eapply rowLit_left]).
  unfold Split.fillable.
  destruct (left r) as [sd|]; simpl in Hlv.
  - destruct Hlv as (sl & -> & Hsl).
    destruct (sideObj_fields sd) as (sfs & Hsfs & _ & _ & Ht & _).
    rewrite Hsfs in Hsl. cbn [isTruthy].
    erewrite bind_run; cycle 1.
    { erewrite bind_run by (eapply getField_run; exact Hsl). reflexivity. }
    rewrite Ht, isDelete_test.
    destruct (bool_decide (side_type sd = Some delete)); cbn [andb].
    + erewrite bind_run; cycle 1.
      { erewrite bind_run
          by (eapply getField_run_Some; [exact Hl | by eapply rowLit_right]).
        reflexivity. }
      destruct (right r) as [sr|]; simpl in Hrv.
      * by destruct Hrv as (? & -> & _).
      * by rewrite Hrv.
    + by erewrite bind_run by reflexivity.
  - rewrite Hlv. cbn [isTruthy andb].
    erewrite bind_run by reflexivity.
    by erewrite bind_run by reflexivity.
Qed.

Lemma scanRows_refines h0 h ra rs line ln n j1 :
  rowsAt h0 h ra rs -> lineAt h line ln -> (j1 <= length rs)%nat ->
  match Split.scan rs j1 (mkSide n (content ln) (Some add)) with
  | Some rs' =>
      exists h', scanRows (VRef ra) j1 (VNum n) line h = Some (true, h')
                 /\ rowsAt h0 h' ra rs'
  | None => scanRows (VRef ra) j1 (VNum n) line h = Some (false, h)
  end.
Proof.
  intros Hrows Hline. induction j1 as [|j IH]; intros Hj; [done|].
  pose proof Hrows as (Hp & Hra & vs & Hvs & Hnd & Hall).
  destruct (lookup_lt_is_Some_2 rs j) as [r Hr]; [lia|].
  destruct (Forall2_lookup_r _ _ _ _ _ Hall Hr) as (v & Hv & Hrow).
  pose proof Hrow as (l & lv & rv & -> & Hge & Hl & Hlv & Hrv).
  destruct (rowLit (rowTypeName (row_type r)) lv rv) as [fs|] eqn:E; [|done].
  cbn [Split.scan scanRows]. rewrite Hr.
  erewrite bind_run by (eapply arrGet_run; eassumption).
  erewrite bind_run
    by (eapply getField_run_Some; [exact Hl | by eapply rowLit_type]).
  rewrite isContext_test.
  destruct (decide (row_type r = Rcontext)) as [Hc|Hc].
  { by rewrite bool_decide_eq_true_2. }
  rewrite bool_decide_eq_false_2 by done.
  rewrite (tests_run h0 h l r) by done.
  destruct (Split.fillable r) eqn:Hf; [|apply IH; lia].
  destruct Hline as (ll & lfs & -> & Hll & Hcont & _).
  erewrite bind_run by (eapply getField_run_Some; eassumption).
  erewrite bind_run by apply alloc_run.
  set (s := mkSide n (content ln) (Some add)).
  change (sideLit3 (VNum n) (VStr (content ln)) "add") with (sideObj s).
  set (h1 := h ++ [sideObj s]).
  assert (h1 !! l = Some (Obj fs)) as Hl1 by by apply lookup_app_l_Some.
  erewrite bind_run by (eapply setField_run; exact Hl1).
  rewrite (rowLit_set_right _ _ _ _ _ E).
  eexists. split; [reflexivity|].
  assert (forall s', h1 !! l <> Some (sideObj s')) as Hnoside.
  { intros s'. rewrite Hl1, <-E. intros [= H]. by eapply rowLit_not_side. }
  pose proof (lookup_lt_Some _ _ _ Hl) as Hlt.
  split_and!; try done.
  { apply prefix_insert_ge; [by apply prefix_app_r|done]. }
  exists vs. split_and!; try done.
  { rewrite list_lookup_insert_ne by congruence. by apply lookup_app_l_Some. }
  apply Forall2_same_length_lookup_2.
  { rewrite length_insert. by eapply Forall2_length. }
  intros i x y Hx Hy. destruct (decide (i = j)) as [->|Hne].
  - rewrite list_lookup_insert_eq in Hy by lia. simplify_eq.
    exists l, lv, (VRef (length h)). split_and!; try done.
    + rewrite list_lookup_insert_eq; [done|]. unfold h1. rewrite length_app. lia.
    + apply sideAt_insert; [by apply sideAt_app|done].
    + exists (length h). split; [done|].
      rewrite list_lookup_insert_ne by lia. unfold h1. by rewrite list_lookup_middle.
  - rewrite list_lookup_insert_ne in Hy by done.
    apply rowAt_insert; [|intros -> |done].
    + apply rowAt_app. eapply Forall2_lookup_lr; eassumption.
    + by apply Hne, (NoDup_lookup vs i j (VRef l)).
Qed.

(** *** The [while] loop on the store *)

Lemma push_run h0 h ra rs r lv rv :
  rowsAt h0 h ra rs ->
  sideAt h lv (left r) -> sideAt h rv (right r) ->
  exists h',
    arrPush (VRef ra) (VRef (length h))
            (h ++ [rowLit (rowTypeName (row_type r)) lv rv]) = Some (tt, h')
    /\ rowsAt h0 h' ra (rs ++ [r]).
Proof. intros Hrows Hlv Hrv. exact (rowsAt_push h0 h ra rs r lv rv Hrows Hlv Hrv). Qed.

Lemma whileLoop_refines h0 p hk ra :
  hunkAt h0 p hk ->
  forall fuel i st h,
    rowsAt h0 h ra (Split.rows st) ->
    (i <= length (lines hk))%nat ->
    (length (lines hk) - i < fuel)%nat ->
    exists h',
      whileLoop fuel p (VRef ra) i
                (VNum (Split.oldLineCounter st)) (VNum (Split.newLineCounter st)) h
      = Some (tt, h')
      /\ rowsAt h0 h' ra (Split.rows (Split.loop (drop i (lines hk)) st)).
Proof.
  intros Hhunk0. induction fuel as [|fuel IH]; intros i st h Hrows Hi Hfuel; [lia|].
  pose proof Hrows as (Hp & Hra & rvs & Hrvs & Hnd & Hall).
  pose proof (hunkAt_mono _ _ _ _ Hp Hhunk0)
    as (pl & pfs & la & vs & -> & Hpl & _ & Hla & _ & _ & Hvs & Hlines).
  pose proof (Forall2_length _ _ _ Hlines) as Hlen.
  cbn [whileLoop].
  erewrite bind_run by (eapply getField_run_Some; eassumption).
  erewrite bind_run by (eapply arrLength_run; eassumption).
  rewrite Hlen.
  destruct (decide (i < length (lines hk))%nat) as [Hlt|Hge]; cycle 1.
  { rewrite (proj2 (Nat.ltb_ge _ _)) by lia.
    rewrite drop_ge by lia. by exists h. }
  rewrite (proj2 (Nat.ltb_lt _ _)) by lia.
  destruct (lookup_lt_is_Some_2 (lines hk) i Hlt) as [ln Hln].
  destruct (Forall2_lookup_r _ _ _ _ _ Hlines Hln) as (lv & Hlv & Hline).
  rewrite (drop_S _ _ _ Hln).
  change (Split.loop (ln :: drop (S i) (lines hk)) st)
    with (Split.loop (drop (S i) (lines hk)) (Split.step st ln)).
  pose proof Hline as (ll & lfs & -> & Hll & Hcont & Htype).
  erewrite bind_run by (eapply arrGet_run; eassumption).
  erewrite bind_run by (eapply getField_run_Some; eassumption).
  unfold Split.step.
  destruct (type ln) eqn:Ht; cbn [typeName strictEqStr String.eqb Ascii.eqb Bool.eqb].
  - (* context *)
    erewrite bind_run by (eapply getField_run_Some; eassumption).
    erewrite bind_run by apply alloc_run.
    erewrite bind_run
      by (eapply getField_run_Some; [by apply lookup_app_l_Some | eassumption]).
    erewrite bind_run by apply alloc_run.
    erewrite bind_run by apply alloc_run.
    set (sl := mkSide (Split.oldLineCounter st) (content ln) None).
    set (sr := mkSide (Split.newLineCounter st) (content ln) None).
    change (sideLit2 (VNum (Split.oldLineCounter st)) (VStr (content ln)))
      with (sideObj sl).
    change (sideLit2 (VNum (Split.newLineCounter st)) (VStr (content ln)))
      with (sideObj sr).
    set (h2 := (h ++ [sideObj sl]) ++ [sideObj sr]).
    destruct (push_run h0 h2 ra (Split.rows st) (mkRow Rcontext (Some sl) (Some sr))
                (VRef (length h)) (VRef (length (h ++ [sideObj sl]))))
      as (h' & Hpush & Hrows').
    { by do 2 apply rowsAt_app. }
    { apply sideAt_app, sideAt_new. }
    { apply sideAt_new. }
    erewrite bind_run by exact Hpush. cbn [incr].
    erewrite bind_run by reflexivity. erewrite bind_run by reflexivity.
    apply (IH (S i) (Split.mkState _ _ _) h'); [exact Hrows'|lia|lia].
  - (* add *)
    erewrite bind_run by (eapply arrLength_run; eassumption).
    rewrite (Forall2_length _ _ _ Hall).
    pose proof (scanRows_refines h0 h ra (Split.rows st) (VRef ll) ln
                  (Split.newLineCounter st) (length (Split.rows st))
                  Hrows Hline (le_n _)) as Hscan.
    unfold Split.merge.
    destruct (Split.scan _ _ _) as [rs'|].
    + destruct Hscan as (h' & Hrun & Hrows').
      erewrite bind_run by exact Hrun.
      erewrite bind_run by reflexivity. cbn [incr].
      erewrite bind_run by reflexivity.
      apply (IH (S i) (Split.mkState _ _ _) h'); [exact Hrows'|lia|lia].
    + erewrite bind_run by exact Hscan.
      set (s := mkSide (Split.newLineCounter st) (content ln) (Some add)).
      destruct (push_run h0 (h ++ [sideObj s]) ra (Split.rows st)
                  (mkRow Rchange None (Some s)) VNull (VRef (length h)))
        as (h' & Hpush & Hrows').
      { by apply rowsAt_app. }
      { done. }
      { apply sideAt_new. }
      erewrite bind_run; cycle 1.
      { erewrite bind_run by (eapply getField_run_Some; eassumption).
        erewrite bind_run by apply alloc_run.
        erewrite bind_run by apply alloc_run.
        exact Hpush. }
      cbn [incr]. erewrite bind_run by reflexivity.
      apply (IH (S i) (Split.mkState _ _ _) h'); [exact Hrows'|lia|lia].
  - (* delete *)
    erewrite bind_run by (eapply getField_run_Some; eassumption).
    erewrite bind_run by apply alloc_run.
    erewrite bind_run by apply alloc_run.
    set (sl := mkSide (Split.oldLineCounter st) (content ln) (Some delete)).
    change (sideLit3 (VNum (Split.oldLineCounter st)) (VStr (content ln)) "delete")
      with (sideObj sl).
    destruct (push_run h0 (h ++ [sideObj sl]) ra (Split.rows st)
                (mkRow Rchange (Some sl) None) (VRef (length h)) VNull)
      as (h' & Hpush & Hrows').
    { by apply rowsAt_app. }
    { apply sideAt_new. }
    { done. }
    erewrite bind_run by exact Hpush. cbn [incr].
    erewrite bind_run by reflexivity.
    apply (IH (S i) (Split.mkState _ _ _) h'); [exact Hrows'|lia|lia].
  - (* no-newline *)
    apply (IH (S i) st h); [done|lia|lia].
Qed.

Lemma SplitHunk_refines h0 p hk fuel :
  hunkAt h0 p hk ->
  (length (lines hk) < fuel)%nat ->
  exists ra h1,
    Js.SplitHunk fuel p h0 = Some (VRef ra, h1)
    /\ rowsAt h0 h1 ra (rowsOf hk).
Proof.
  intros Hhunk Hfuel. unfold Js.SplitHunk.
  erewrite bind_run by apply alloc_run.
  set (h := h0 ++ [Arr []]).
  assert (rowsAt h0 h (length h0) []) as Hrows.
  { split_and!; [by apply prefix_app_r|done|]. exists [].
    split_and!; [by apply list_lookup_middle|constructor|constructor]. }
  pose proof (hunkAt_mono h0 h _ _ (prefix_app_r _ _ _ (reflexivity _)) Hhunk)
    as (pl & pfs & la & vs & -> & Hpl & _ & _ & Ho & Hn & _ & _).
  erewrite bind_run by (eapply getField_run_Some; eassumption).
  erewrite bind_run by (eapply getField_run_Some; eassumption).
  destruct (whileLoop_refines h0 (VRef pl) hk (length h0) Hhunk fuel 0 (Split.init hk) h)
    as (h1 & Hrun & Hrows1); [done|lia|lia|].
  erewrite bind_run by exact Hrun.
  exists (length h0), h1. done.
Qed.

(** *** The rows read back *)

Lemma sideAt_readSide h v o : sideAt h v o -> readSide h v = Some o.
Proof.
  destruct o as [s|]; [|by intros ->]. intros (l & -> & Hl).
  destruct (sideObj_fields s) as (fs & Hfs & Hn & Hc & Ht & _).
  unfold readSide, fieldsAt. rewrite Hl, Hfs. simpl. rewrite Hn, Hc, Ht. simpl.
  destruct s as [n c [t|]]; simpl; [|done]. by rewrite readType_typeName.
Qed.

Lemma rowAt_readRow h0 h v r : rowAt h0 h v r -> readRow h v = Some r.
Proof.
  intros (l & lv & rv & -> & _ & Hl & Hlv & Hrv).
  unfold readRow, fieldsAt. rewrite Hl.
  destruct (rowLit (rowTypeName (row_type r)) lv rv) as [fs|] eqn:E; [|done].
  simpl. rewrite (rowLit_type _ _ _ _ E), (rowLit_left _ _ _ _ E), (rowLit_right _ _ _ _ E).
  simpl. rewrite readRowType_name. simpl.
  rewrite (sideAt_readSide _ _ _ Hlv), (sideAt_readSide _ _ _ Hrv). simpl.
  by destruct r.
Qed.

Lemma rowsAt_readRows h0 h ra rs : rowsAt h0 h ra rs -> readRows h (VRef ra) = Some rs.
Proof.
  intros (_ & _ & vs & Hvs & _ & Hall). unfold readRows, elemsAt. rewrite Hvs. simpl.
  apply mapM_Some. eapply Forall2_impl; [done|]. intros ??. apply rowAt_readRow.
Qed.

(** *** Every hunk has a store that holds it *)

Lemma storeHunk_hunkAt hk h :
  hunkAt (storeHunk hk h).2 (storeHunk hk h).1 hk
  /\ h `prefix_of` (storeHunk hk h).2.
Proof.
  unfold storeHunk. cbn [fst snd].
  set (n := length h). set (k := length (lines hk)).
  set (vs := (fun i => VRef (n + i)%nat) <$> seq 0 k).
  set (h1 := h ++ (lineLit <$> lines hk)).
  set (h2 := h1 ++ [Arr vs]).
  assert (length h1 = (n + k)%nat) as Hlen1.
  { unfold h1. by rewrite length_app, length_fmap. }
  assert (length h2 = (n + k + 1)%nat) as Hlen2.
  { unfold h2. rewrite length_app, Hlen1. done. }
  split; cycle 1.
  { unfold h2, h1. rewrite <-!app_assoc. by apply prefix_app_r. }
  eexists (n + k + 1)%nat, _, (n + k)%nat, vs.
  split_and!; [done| | | | | | |].
  - by apply list_lookup_middle.
  - done.
  - done.
  - done.
  - done.
  - apply lookup_app_l_Some. by apply list_lookup_middle.
  - apply Forall2_same_length_lookup_2.
    { unfold vs. by rewrite length_fmap, length_seq. }
    intros i v ln Hv Hln. unfold vs in Hv.
    rewrite list_lookup_fmap in Hv.
    destruct (seq 0 k !! i) as [i'|] eqn:Hi; [|done].
    apply lookup_seq in Hi as [-> _]. simpl in Hv. simplify_eq.
    exists (n + i)%nat,
      (<["content" := VStr (content ln)]> (<["type" := VStr (typeName (type ln))]> ∅)).
    split_and!; [done| |done|done].
    do 2 apply lookup_app_l_Some. unfold h1.
    rewrite lookup_app_r by (unfold n; lia).
    replace (n + i - length h)%nat with i by (unfold n; lia).
    by rewrite list_lookup_fmap, Hln.
Qed.

Lemma storeHunk_readHunk hk h :
  readHunk (storeHunk hk h).2 (storeHunk hk h).1 = Some hk.
Proof. apply hunkAt_readHunk, storeHunk_hunkAt. Qed.
End Store.

(** C9.  Take any store that holds a hunk [hk] behind the reference [p].
    [SplitHunk] run on it returns; run a second time, on the store the
    first call left, it returns again; both results read back as the same
    sequence of rows, the rows of [hk], and the first result still reads
    so after the second call.  Neither call writes to an object that was
    there before it: the store before a call is a prefix of the store
    after it, so the hunk, its [lines] array, its lines and its start
    numbers read back unchanged. *)
Theorem SplitHunk_repeatable_and_input_preserving
        (h0 : list Js.obj) (p : Js.val) (hk : Hunk) (fuel : nat) :
  Js.readHunk h0 p = Some hk ->
  (length (lines hk) < fuel)%nat ->
  exists v1 h1 v2 h2,
    Js.SplitHunk fuel p h0 = Some (v1, h1)
    /\ Js.SplitHunk fuel p h1 = Some (v2, h2)
    /\ Js.readRows h1 v1 = Some (SplitHunk hk)
    /\ Js.readRows h2 v2 = Some (SplitHunk hk)
    /\ Js.readRows h2 v1 = Some (SplitHunk hk)
    /\ h0 `prefix_of` h1 /\ h1 `prefix_of` h2
    /\ Js.readHunk h1 p = Some hk /\ Js.readHunk h2 p = Some hk.
Proof.
  intros Hread Hfuel. apply readHunk_hunkAt in Hread.
  destruct (SplitHunk_refines h0 p hk fuel Hread Hfuel) as (ra1 & h1 & Hrun1 & Hrows1).
  pose proof Hrows1 as (Hp1 & _).
  pose proof (hunkAt_mono _ _ _ _ Hp1 Hread) as Hread1.
  destruct (SplitHunk_refines h1 p hk fuel Hread1 Hfuel) as (ra2 & h2 & Hrun2 & Hrows2).
  pose proof Hrows2 as (Hp2 & _).
  pose proof (hunkAt_mono _ _ _ _ Hp2 Hread1) as Hread2.
  exists (Js.VRef ra1), h1, (Js.VRef ra2), h2.
  split_and!; try done.
  - by eapply rowsAt_readRows.
  - by eapply rowsAt_readRows.
  - destruct Hp2 as [tl ->]. eapply rowsAt_readRows. by apply rowsAt_app.
  - by apply hunkAt_readHunk.
  - by apply hunkAt_readHunk.
Qed.

Lemma SplitHunk_repeatable_and_input_preserving_witness :
  exists v1 h1 v2 h2,
    Js.SplitHunk 4 store21.1 store21.2 = Some (v1, h1)
    /\ Js.SplitHunk 4 store21.1 h1 = Some (v2, h2)
    /\ Js.readRows h1 v1 = Some (SplitHunk hunk21)
    /\ Js.readRows h2 v2 = Some (SplitHunk hunk21)
    /\ Js.readRows h2 v1 = Some (SplitHunk hunk21)
    /\ store21.2 `prefix_of` h1 /\ h1 `prefix_of` h2
    /\ Js.readHunk h1 store21.1 = Some hunk21 /\ Js.readHunk h2 store21.1 = Some hunk21.
Proof.
  apply (SplitHunk_repeatable_and_input_preserving store21.2 store21.1 hunk21 4).
  - vm_compute. reflexivity.
  - simpl. lia.
Defined.


(** * Further properties of the code *)

(** ** The hunk-header pattern *)

Section Pattern.
Import Re.

Lemma append_nil (b : string) : EmptyString +:+ b = b.
Proof. done. Qed.

Lemma append_cons (x : ascii) (a b : string) : String x a +:+ b = String x (a +:+ b).
Proof. done. Qed.

Lemma append_assoc (a b c : string) : (a +:+ b) +:+ c = a +:+ (b +:+ c).
Proof. induction a as [|x a IH]; [done|]. rewrite !append_cons. by f_equal. Qed.

Lemma string_of_snoc (l : list ascii) (c : ascii) :
  String.string_of_list_ascii (l ++ [c]) =
  String.string_of_list_ascii l +:+ String c EmptyString.
Proof.
  induction l as [|x l IH]; [done|].
  cbn [app String.string_of_list_ascii]. rewrite append_cons. by f_equal.
Qed.

Lemma lit_append {A} (p s : string) (k : string -> option A) :
  lit p (p +:+ s) k = k s.
Proof.
  induction p as [|a p IH]; [done|].
  rewrite append_cons. cbn [lit]. by rewrite Ascii.eqb_refl.
Qed.

Lemma digits1_stop {A} acc (s : string) (k : string -> string -> option A) :
  stopsDigits s = true -> digits1 acc s k = None.
Proof.
  destruct s as [|c s]; [done|]. simpl. intros H%negb_true_iff. by rewrite H.
Qed.

(** A run of digits followed by something else is taken whole when the
    rest of the pattern matches after it. *)
Lemma digits1_greedy {A} (ds : string) : forall acc (rest : string)
    (k : string -> string -> option A) r,
  allDigits ds = true ->
  stopsDigits rest = true ->
  k (String.string_of_list_ascii (rev acc) +:+ ds) rest = Some r ->
  digits1 acc (ds +:+ rest) k = Some r.
Proof.
  induction ds as [|c ds IH]; intros acc rest k r Hd Hstop Hk; [done|].
  cbn [allDigits String.list_ascii_of_string forallb] in Hd.
  apply andb_prop in Hd as [Hc Hds].
  rewrite append_cons. cbn [digits1]. rewrite Hc.
  assert (String.string_of_list_ascii (rev (c :: acc)) =
          String.string_of_list_ascii (rev acc) +:+ String c EmptyString) as Hsnoc.
  { cbn [rev]. apply string_of_snoc. }
  destruct ds as [|c' ds].
  - rewrite append_nil, digits1_stop by done. by rewrite Hsnoc.
  - erewrite IH; [done| |done|].
    + done.
    + by rewrite Hsnoc, append_assoc.
Qed.

Lemma optCount_some {A} (d rest : string) (k : string -> option A) r :
  allDigits d = true -> stopsDigits rest = true ->
  k rest = Some r ->
  optCount (countText (Some d) +:+ rest) k = Some r.
Proof.
  intros Hd Hstop Hk. unfold optCount, countText.
  rewrite append_assoc, lit_append.
  by erewrite digits1_greedy.
Qed.

Lemma optCount_none {A} (rest : string) (k : string -> option A) :
  Str.startsWith rest " " = true ->
  optCount (countText None +:+ rest) k = k rest.
Proof.
  intros Hsp. unfold optCount, countText. rewrite append_nil.
  destruct rest as [|c rest]; [done|]. cbn [Str.startsWith] in Hsp.
  apply andb_prop in Hsp as [Hc _]. apply Ascii.eqb_eq in Hc as <-. done.
Qed.

Lemma optCount_either {A} (c : option string) (rest : string)
      (k : string -> option A) r :
  (forall d, c = Some d -> allDigits d = true) ->
  Str.startsWith rest " " = true ->
  k rest = Some r ->
  optCount (countText c +:+ rest) k = Some r.
Proof.
  intros Hc Hsp Hk. destruct c as [d|].
  - apply optCount_some; [by apply Hc| |done].
    destruct rest as [|x rest]; [done|]. cbn [Str.startsWith] in Hsp.
    apply andb_prop in Hsp as [Hx _]. apply Ascii.eqb_eq in Hx as <-. done.
  - by rewrite optCount_none.
Qed.

Lemma stops_countText (c : option string) (rest : string) :
  Str.startsWith rest " " = true -> stopsDigits (countText c +:+ rest) = true.
Proof.
  destruct c as [d|]; [done|]. cbn [countText]. rewrite append_nil.
  destruct rest as [|x rest]; [done|]. cbn [Str.startsWith].
  intros [Hx _]%andb_prop. apply Ascii.eqb_eq in Hx as <-. done.
Qed.

(** *** What the captures can be *)

Lemma lit_inv {A} (p s : string) (k : string -> option A) r :
  lit p s k = Some r -> exists s', k s' = Some r.
Proof.
  revert s. induction p as [|a p IH]; intros s; [by eauto|].
  simpl. destruct s as [|b s]; [done|]. destruct (Ascii.eqb a b); [apply IH|done].
Qed.

Lemma string_of_app_digit (l : list ascii) :
  l <> [] -> forallb Str.isDigit l = true ->
  allDigits (String.string_of_list_ascii l) = true.
Proof.
  intros Hne Hall. destruct l as [|c l]; [done|].
  cbn [String.string_of_list_ascii allDigits].
  change (String c (String.string_of_list_ascii l))
    with (String.string_of_list_ascii (c :: l)).
  by rewrite String.list_ascii_of_string_of_list_ascii.
Qed.

Lemma digits1_inv {A} (s : string) : forall acc (k : string -> string -> option A) r,
  forallb Str.isDigit acc = true ->
  digits1 acc s k = Some r ->
  exists m s', allDigits m = true /\ k m s' = Some r.
Proof.
  induction s as [|c s IH]; intros acc k r Hacc; [done|].
  cbn [digits1]. destruct (Str.isDigit c) eqn:Hc; [|done].
  assert (forallb Str.isDigit (c :: acc) = true) as Hacc'.
  { cbn [forallb]. by rewrite Hc, Hacc. }
  destruct (digits1 (c :: acc) s k) as [r'|] eqn:Hrec.
  - intros [= <-]. by eapply IH.
  - intros Hk. eexists _, _. split; [|exact Hk].
    apply string_of_app_digit.
    + cbn [rev]. by destruct (rev acc).
    + rewrite forallb_forall. intros x Hx%in_rev.
      by eapply forallb_forall in Hacc'.
Qed.

Lemma optCount_inv {A} (s : string) (k : string -> option A) r :
  optCount s k = Some r -> exists s', k s' = Some r.
Proof.
  unfold optCount.
  destruct (lit "," s _) as [r'|] eqn:Hl; [|by eauto].
  intros [= <-]. apply lit_inv in Hl as (s1 & Hd).
  apply digits1_inv in Hd as (m & s2 & _ & Hk); by eauto.
Qed.

Lemma matchHere_digits (s m1 m3 : string) :
  matchHere s = Some (m1, m3) -> allDigits m1 = true /\ allDigits m3 = true.
Proof.
  unfold matchHere. intros H.
  apply lit_inv in H as (s1 & H).
  apply digits1_inv in H as (d1 & s2 & Hd1 & H); [|done].
  apply optCount_inv in H as (s3 & H).
  apply lit_inv in H as (s4 & H).
  apply digits1_inv in H as (d3 & s5 & Hd3 & H); [|done].
  apply optCount_inv in H as (s6 & H).
  apply lit_inv in H as (s7 & H).
  by simplify_eq.
Qed.

Lemma search_digits (s m1 m3 : string) :
  search s = Some (m1, m3) -> allDigits m1 = true /\ allDigits m3 = true.
Proof.
  induction s as [|c s IH]; cbn [search].
  - destruct (matchHere EmptyString) as [[a b]|] eqn:E; [|done].
    intros [= <- <-]. by eapply matchHere_digits.
  - destruct (matchHere (String c s)) as [[a b]|] eqn:E; [|exact IH].
    intros [= <- <-]. by eapply matchHere_digits.
Qed.

Lemma digitVal_nonneg (c : ascii) : Str.isDigit c = true -> 0 <= Str.digitVal c <= 9.
Proof.
  unfold Str.isDigit, Str.digitVal.
  intros [H1 H2]%andb_prop. apply Nat.leb_le in H1, H2. lia.
Qed.

Lemma fold_digits_nonneg (l : list ascii) :
  forallb Str.isDigit l = true ->
  forall acc, 0 <= acc ->
  0 <= fold_left (fun acc c => 10 * acc + Str.digitVal c) l acc.
Proof.
  induction l as [|c l IH]; intros Hall acc Hacc; [done|].
  cbn [forallb] in Hall. apply andb_prop in Hall as [Hc Hl].
  cbn [fold_left]. apply IH; [done|].
  pose proof (digitVal_nonneg c Hc). lia.
Qed.

Lemma parseInt_nonneg (s : string) : allDigits s = true -> 0 <= Str.parseInt s.
Proof.
  intros Hs. unfold Str.parseInt. apply fold_digits_nonneg; [|done].
  by destruct s.
Qed.

Lemma headerStarts_nonneg (line : string) :
  0 <= (Parser.headerStarts line).1 /\ 0 <= (Parser.headerStarts line).2.
Proof.
  unfold Parser.headerStarts.
  destruct (search line) as [[m1 m3]|] eqn:E; [|done].
  apply search_digits in E as [H1 H3]. cbn [fst snd].
  split; by apply parseInt_nonneg.
Qed.
End Pattern.

(** X5.  Every well-formed hunk header, with or without the two counts
    and whatever follows the closing [@@], is matched, and the start
    numbers the parser stores are the two numbers written in it. *)
Theorem wellformed_header_gives_its_starts
        (d1 d3 : string) (c2 c4 : option string) (tail : string) :
  allDigits d1 = true -> allDigits d3 = true ->
  (forall d, c2 = Some d -> allDigits d = true) ->
  (forall d, c4 = Some d -> allDigits d = true) ->
  Re.search (hunkHeaderText d1 c2 d3 c4 tail) = Some (d1, d3)
  /\ Parser.headerStarts (hunkHeaderText d1 c2 d3 c4 tail) =
       (Str.parseInt d1, Str.parseInt d3).
Proof.
  intros H1 H3 H2 H4.
  assert (Re.matchHere (hunkHeaderText d1 c2 d3 c4 tail) = Some (d1, d3)) as Hm.
  { unfold Re.matchHere, hunkHeaderText.
    rewrite lit_append.
    apply digits1_greedy; [done|by apply stops_countText|].
    cbn [rev String.string_of_list_ascii]. rewrite append_nil.
    apply optCount_either; [done|done|].
    rewrite lit_append.
    apply digits1_greedy; [done|by apply stops_countText|].
    cbn [rev String.string_of_list_ascii]. rewrite append_nil.
    apply optCount_either; [done|done|].
    by rewrite lit_append. }
  assert (Re.search (hunkHeaderText d1 c2 d3 c4 tail) = Some (d1, d3)) as Hs.
  { destruct (hunkHeaderText d1 c2 d3 c4 tail); cbn [Re.search]; by rewrite Hm. }
  split; [done|]. unfold Parser.headerStarts. by rewrite Hs.
Qed.

Lemma wellformed_header_gives_its_starts_witness :
  Re.search (hunkHeaderText "12" (Some "3") "45" None " int main()") = Some ("12", "45")
  /\ Parser.headerStarts (hunkHeaderText "12" (Some "3") "45" None " int main()") =
       (Str.parseInt "12", Str.parseInt "45").
Proof.
  apply (wellformed_header_gives_its_starts "12" "45" (Some "3") None " int main()").
  - reflexivity.
  - reflexivity.
  - intros d [= <-]. reflexivity.
  - intros d [=].
Defined.

(** ** More on the parser *)

Section ParserMore.
Import Parser.

Lemma split_nonempty (t : string) : Str.split t <> [].
Proof.
  induction t as [|c t IH]; [done|]. cbn [Str.split].
  destruct (Ascii.eqb c Str.LF); [done|]. by destruct (Str.split t).
Qed.

Lemma split_app (t1 t2 : string) :
  Str.split (t1 +:+ NL +:+ t2) = Str.split t1 ++ Str.split t2.
Proof.
  induction t1 as [|c t1 IH].
  - rewrite append_nil. unfold NL. rewrite append_cons, append_nil.
    cbn [Str.split]. by rewrite Ascii.eqb_refl.
  - rewrite append_cons. cbn [Str.split]. rewrite IH.
    destruct (Ascii.eqb c Str.LF); [done|].
    pose proof (split_nonempty t1). by destruct (Str.split t1).
Qed.

Lemma split_first_line (p : string) : forall t,
  forallb (fun c => negb (Ascii.eqb c Str.LF)) (String.list_ascii_of_string p) = true ->
  Str.startsWith t p = true ->
  exists seg rest, Str.split t = seg :: rest /\ Str.startsWith seg p = true.
Proof.
  induction p as [|a p IH]; intros t Hp Ht.
  - pose proof (split_nonempty t). destruct (Str.split t) as [|seg rest]; [done|].
    exists seg, rest. split; [done|]. by destruct seg.
  - destruct t as [|b t]; [done|]. cbn [Str.startsWith] in Ht.
    apply andb_prop in Ht as [Hab Ht]. apply Ascii.eqb_eq in Hab as <-.
    cbn [String.list_ascii_of_string forallb] in Hp.
    apply andb_prop in Hp as [Ha Hp]. apply negb_true_iff in Ha.
    destruct (IH t Hp Ht) as (seg & rest & Hsplit & Hseg).
    exists (String a seg), rest. cbn [Str.split]. rewrite Ha, Hsplit.
    split; [done|]. cbn [Str.startsWith]. by rewrite Ascii.eqb_refl.
Qed.

(** *** Files already closed are carried along *)

Lemma step_shift pre fs cf ch l :
  step (mkState (pre ++ fs) cf ch) l =
  let st := step (mkState fs cf ch) l in
  mkState (pre ++ files st) (currentFile st) (currentHunk st).
Proof.
  unfold step, flush. cbn [files currentFile currentHunk].
  repeat case_match; cbn [files currentFile currentHunk]; rewrite ?app_assoc; done.
Qed.

Lemma loop_shift pre ls : forall fs cf ch,
  loop ls (mkState (pre ++ fs) cf ch) =
  let st := loop ls (mkState fs cf ch) in
  mkState (pre ++ files st) (currentFile st) (currentHunk st).
Proof.
  induction ls as [|l ls IH]; intros fs cf ch; [done|].
  rewrite !loop_cons, step_shift. cbv zeta.
  destruct (step (mkState fs cf ch) l) as [fs' cf' ch'].
  cbn [files currentFile currentHunk]. apply IH.
Qed.

Lemma flush_shift pre st :
  flush (mkState (pre ++ files st) (currentFile st) (currentHunk st)) = pre ++ flush st.
Proof.
  unfold flush. cbn [files currentFile currentHunk].
  destruct (currentFile st); [by rewrite app_assoc|done].
Qed.

Lemma parseLines_app l1 h l2 :
  isHeader h = true ->
  parseLines (l1 ++ h :: l2) = parseLines l1 ++ parseLines (h :: l2).
Proof.
  intros Hh. unfold parseLines.
  rewrite loop_app, !loop_cons.
  unfold step at 1 2. fold (isHeader h). rewrite Hh.
  change (flush init) with (@nil FileChange).
  rewrite <-(app_nil_r (flush (loop l1 init))) at 1.
  rewrite loop_shift. cbv zeta. by rewrite flush_shift.
Qed.

Lemma parseDiff_lines (text : string) :
  parseDiff (Some text) = parseLines (fromFirstHeader (Str.split text))
  /\ parseLines (fromFirstHeader (Str.split text)) = parseLines (Str.split text).
Proof.
  assert (forall ls, parseLines (fromFirstHeader ls) = parseLines ls) as Hdrop.
  { induction ls as [|l ls IH]; [done|]. cbn [fromFirstHeader].
    destruct (isHeader l) eqn:Hl; [done|]. rewrite IH.
    unfold parseLines. by rewrite loop_cons, step_no_file. }
  split; [|apply Hdrop]. rewrite Hdrop. by destruct text.
Qed.

(** *** What the printed model is *)

Lemma header_not_marker l : isHeader l = true -> isMarker l = false.
Proof.
  unfold isHeader, isMarker. destruct l as [|c l]; [done|].
  cbn [Str.startsWith]. destruct (Ascii.eqb "d" c) eqn:E; [|done].
  apply Ascii.eqb_eq in E as <-. done.
Qed.

Lemma printFiles_snoc fs f : printFiles (fs ++ [f]) = printFiles fs ++ printFile f.
Proof. unfold printFiles. rewrite bind_app. cbn. by rewrite app_nil_r. Qed.

Lemma printFile_pushHunk f h :
  printFile (pushHunk f h) = printFile f ++ from_option printHunk [] h.
Proof.
  destruct h as [hk|]; [|by rewrite app_nil_r].
  unfold printFile. cbn [pushHunk header meta hunks from_option].
  rewrite bind_app. cbn. by rewrite app_nil_r, !app_assoc.
Qed.

(** A state with a file open; without an open hunk the file has none. *)
Lemma print_step st f l :
  currentFile st = Some f ->
  (currentHunk st = None -> hunks f = []) ->
  (exists f', currentFile (step st l) = Some f'
              /\ (currentHunk (step st l) = None -> hunks f' = []))
  /\ printFiles (flush (step st l)) =
       printFiles (flush st) ++ (if isMarker l then [] else [l]).
Proof.
  intros Hf Hnone. destruct st as [fs cf ch]. cbn [currentFile currentHunk] in *.
  subst cf. unfold step, isMarker. cbn [currentFile currentHunk files].
  destruct (Str.startsWith l "diff --git") eqn:Hh.
  { rewrite (header_not_marker l Hh : _ || _ = false).
    split; [eexists; split; [reflexivity|cbn; try done; try exact Hnone]|]. cbn [flush currentFile currentHunk files pushHunk].
    by rewrite printFiles_snoc. }
  destruct (Str.startsWith l "--- a/") eqn:Ha.
  { split; [eexists; split; [reflexivity|cbn; try done; try exact Hnone]|]. cbn [orb flush currentFile currentHunk files].
    rewrite !printFiles_snoc, !printFile_pushHunk, app_nil_r. done. }
  destruct (Str.startsWith l "+++ b/") eqn:Hb.
  { split; [eexists; split; [reflexivity|cbn; try done; try exact Hnone]|]. cbn [orb flush currentFile currentHunk files].
    rewrite !printFiles_snoc, !printFile_pushHunk, app_nil_r. done. }
  cbn [orb].
  destruct (Str.startsWith l "@@ ") eqn:Hat.
  { destruct (headerStarts l) as [o n].
    split; [eexists; split; [reflexivity|cbn; try done; try exact Hnone]|]. cbn [flush currentFile currentHunk files].
    rewrite !printFiles_snoc, !printFile_pushHunk.
    cbn [from_option printHunk hunk_header lines fmap list_fmap].
    by rewrite !app_assoc. }
  destruct ch as [hk|].
  - split; [eexists; split; [reflexivity|cbn; try done; try exact Hnone]|]. cbn [flush currentFile currentHunk files].
    rewrite !printFiles_snoc, !printFile_pushHunk.
    cbn [from_option]. unfold printHunk. cbn [hunk_header lines].
    rewrite fmap_app. cbn [fmap list_fmap content].
    by rewrite !app_comm_cons, !app_assoc.
  - split; [eexists; split; [reflexivity|cbn; try done; try exact Hnone]|]. cbn [flush currentFile currentHunk files pushHunk].
    rewrite !printFiles_snoc. unfold printFile. cbn [header meta hunks].
    rewrite (Hnone eq_refl). cbn. by rewrite !app_nil_r, !app_comm_cons, !app_assoc.
Qed.

Lemma print_loop ls : forall st f,
  currentFile st = Some f ->
  (currentHunk st = None -> hunks f = []) ->
  printFiles (flush (loop ls st)) =
  printFiles (flush st) ++ filter (fun l => isMarker l = false) ls.
Proof.
  induction ls as [|l ls IH]; intros st f Hf Hnone.
  { by rewrite app_nil_r. }
  rewrite loop_cons.
  destruct (print_step st f l Hf Hnone) as ((f' & Hf' & Hnone') & Hprint).
  rewrite (IH _ f' Hf' Hnone'), Hprint, <-app_assoc. f_equal.
  destruct (isMarker l) eqn:Hm.
  - by rewrite filter_cons_False by congruence.
  - by rewrite filter_cons_True by done.
Qed.

Lemma print_parseLines ls :
  printFiles (parseLines ls) = filter (fun l => isMarker l = false) (fromFirstHeader ls).
Proof.
  induction ls as [|l ls IH]; [done|]. cbn [fromFirstHeader].
  destruct (isHeader l) eqn:Hl.
  - unfold parseLines. rewrite loop_cons.
    unfold step at 1. fold (isHeader l). rewrite Hl.
    erewrite print_loop; [|done..].
    rewrite filter_cons_True by by apply header_not_marker.
    cbn [flush currentFile currentHunk files pushHunk]. done.
  - rewrite <-IH. unfold parseLines. by rewrite loop_cons, step_no_file.
Qed.

(** *** Well-formed files *)

Lemma fileOK_pushHunk f h :
  fileOK f -> from_option hunkOK True h -> fileOK (pushHunk f h).
Proof.
  intros (H1 & H2 & H3) Hh. destruct h as [hk|]; [|done].
  split_and!; try done. cbn [pushHunk hunks]. apply Forall_app. by split; [|constructor].
Qed.

Lemma wellformed_step st l :
  Forall fileOK (files st) ->
  from_option fileOK True (currentFile st) ->
  from_option hunkOK True (currentHunk st) ->
  Forall fileOK (files (step st l))
  /\ from_option fileOK True (currentFile (step st l))
  /\ from_option hunkOK True (currentHunk (step st l)).
Proof.
  intros Hfs Hf Hh. unfold step.
  destruct (Str.startsWith l "diff --git") eqn:Ehd.
  { cbn [files currentFile currentHunk from_option].
    split_and!; [|split_and!; [exact Ehd|constructor|constructor]|done].
    unfold flush. destruct (currentFile st) as [f|]; [|done].
    apply Forall_app. split; [done|]. constructor; [|done]. by apply fileOK_pushHunk. }
  destruct (Str.startsWith l "--- a/") eqn:Ea.
  { destruct (currentFile st) as [f|] eqn:Ef; [|by rewrite Ef].
    cbn [files currentFile currentHunk from_option] in *. by destruct Hf as (? & ? & ?). }
  destruct (Str.startsWith l "+++ b/") eqn:Eb.
  { destruct (currentFile st) as [f|] eqn:Ef; [|by rewrite Ef].
    cbn [files currentFile currentHunk from_option] in *. by destruct Hf as (? & ? & ?). }
  destruct (Str.startsWith l "@@ ") eqn:Eat.
  { destruct (currentFile st) as [f|] eqn:Ef; [|by rewrite Ef].
    pose proof (headerStarts_nonneg l) as [Ho Hn].
    destruct (headerStarts l) as [o n] eqn:Est.
    cbn [files currentFile currentHunk from_option fst snd] in *.
    split_and!; [done|by apply fileOK_pushHunk|].
    unfold hunkOK. cbn [hunk_header oldStart newStart lines]. by rewrite Est. }
  assert (isContent l = true) as Hcont.
  { unfold isContent, isHeader. by rewrite Ehd, Ea, Eb, Eat. }
  destruct (currentFile st) as [f|] eqn:Ef; [|by rewrite Ef].
  destruct (currentHunk st) as [hk|] eqn:Ek.
  - cbn [files currentFile currentHunk from_option] in *.
    split_and!; [done|done|].
    destruct Hh as (H1 & H2 & H3 & H4 & H5).
    unfold hunkOK. cbn [hunk_header oldStart newStart lines].
    split_and!; try done. apply Forall_app. split; [done|]. by repeat constructor.
  - cbn [files currentFile currentHunk from_option] in *.
    split_and!; [done| |done].
    destruct Hf as (H1 & H2 & H3). split_and!; try done.
    cbn [meta]. apply Forall_app. by split; [|constructor].
Qed.

Lemma wellformed_loop ls : forall st,
  Forall fileOK (files st) ->
  from_option fileOK True (currentFile st) ->
  from_option hunkOK True (currentHunk st) ->
  Forall fileOK (flush (loop ls st)).
Proof.
  induction ls as [|l ls IH]; intros st Hfs Hf Hh.
  - unfold loop, flush. cbn [fold_left]. destruct (currentFile st) as [f|]; [|done].
    apply Forall_app. split; [done|]. constructor; [|done]. by apply fileOK_pushHunk.
  - rewrite loop_cons. destruct (wellformed_step st l Hfs Hf Hh) as (? & ? & ?).
    by apply IH.
Qed.
End ParserMore.

Section ParserHeaders.
Import Parser.

Lemma headers_step st l :
  header <$> flush (step st l) =
  (header <$> flush st) ++ (if isHeader l then [l] else []).
Proof.
  unfold step, isHeader.
  destruct (Str.startsWith l "diff --git").
  { unfold flush at 1. cbn [files currentFile currentHunk]. by rewrite fmap_app. }
  rewrite app_nil_r. unfold flush.
  repeat case_match; simplify_eq/=; rewrite ?fmap_app; simpl; try done;
    repeat match goal with
           | |- context [pushHunk ?f ?h] =>
               rewrite (proj1 (pushHunk_names f h))
           end; done.
Qed.

Lemma headers_loop ls : forall st,
  header <$> flush (loop ls st) =
  (header <$> flush st) ++ filter (fun l => isHeader l = true) ls.
Proof.
  induction ls as [|l ls IH]; intros st; [by rewrite app_nil_r|].
  rewrite loop_cons, IH, headers_step, <-app_assoc. f_equal.
  destruct (isHeader l) eqn:E.
  - by rewrite filter_cons_True by done.
  - by rewrite filter_cons_False by congruence.
Qed.
End ParserHeaders.

(** X1.  Diffs concatenate: when a text that starts with [diff --git] is
    appended, after a line feed, to any text, the files parsed from the
    whole are the files of the first text followed by the files of the
    second; a file is parsed from its own lines alone. *)
Theorem parseDiff_concat (t1 t2 : string) :
  Str.startsWith t2 "diff --git" = true ->
  parseDiff (Some (t1 +:+ NL +:+ t2)) = parseDiff (Some t1) ++ parseDiff (Some t2).
Proof.
  intros Ht2.
  destruct (split_first_line "diff --git" t2 eq_refl Ht2) as (h & rest & Hsplit & Hh).
  destruct (parseDiff_lines (t1 +:+ NL +:+ t2)) as [-> ->].
  destruct (parseDiff_lines t1) as [-> ->].
  destruct (parseDiff_lines t2) as [-> ->].
  rewrite split_app, Hsplit. by apply parseLines_app.
Qed.

Lemma parseDiff_concat_witness :
  parseDiff (Some (scenarioText +:+ NL +:+ twoOldNames)) =
  parseDiff (Some scenarioText) ++ parseDiff (Some twoOldNames).
Proof. apply (parseDiff_concat scenarioText twoOldNames). reflexivity. Defined.

(** X2.  Nothing of a diff is lost but the text before the first header
    line and the [--- a/] and [+++ b/] lines: the headers, metadata lines,
    hunk headers and line contents of the parsed files, read in order,
    are the lines of the text from the first header line on, without
    those marker lines. *)
Theorem parse_keeps_all_but_markers (text : string) :
  printFiles (parseDiff (Some text)) =
  filter (fun l => isMarker l = false) (fromFirstHeader (Str.split text)).
Proof.
  destruct (parseDiff_lines text) as [-> ->]. apply print_parseLines.
Qed.

(** X3.  The files [parseDiff] returns are well formed, whatever the text:
    a file's header starts with [diff --git]; its metadata lines and the
    contents of its hunk lines start with none of the prefixes the parser
    acts on; every hunk header starts with [@@ ], the two start numbers
    are the ones read from that header and are not negative; and every
    line has the kind its first character gives. *)
Theorem parsed_files_are_wellformed (diffText : option string) :
  Forall fileOK (parseDiff diffText).
Proof.
  destruct diffText as [text|]; [|constructor].
  destruct (parseDiff_lines text) as [-> ->].
  by apply wellformed_loop.
Qed.

(** X4.  The files are the header lines: the headers of the parsed files
    are, in order, the lines of the text that start with [diff --git], so
    there are as many files as such lines. *)
Theorem files_are_the_header_lines (text : string) :
  header <$> parseDiff (Some text) =
    filter (fun l => isHeader l = true) (Str.split text)
  /\ length (parseDiff (Some text)) =
       length (filter (fun l => isHeader l = true) (Str.split text)).
Proof.
  assert (header <$> parseDiff (Some text) =
          filter (fun l => isHeader l = true) (Str.split text)) as H.
  { destruct (parseDiff_lines text) as [-> ->]. unfold Parser.parseLines.
    by rewrite headers_loop. }
  split; [done|]. by rewrite <-H, length_fmap.
Qed.

(** ** More on the rows of the split view *)

Section Columns.
Import Split.

Lemma omap_length_le {A B} (f : A -> option B) (l : list A) :
  (length (omap f l) <= length l)%nat.
Proof.
  induction l as [|x l IH]; [done|]. cbn [omap list_omap length].
  destruct (f x); cbn [length]; lia.
Qed.

Lemma lefts_fill (rs : list Row) (j : nat) r s :
  rs !! j = Some r -> omap left (<[j := setRight r s]> rs) = omap left rs.
Proof.
  intros Hr. by rewrite (omap_fill _ _ _ _ _ Hr), (omap_middle left rs j r Hr).
Qed.

Lemma rights_fill (rs : list Row) (j : nat) r s :
  rs !! j = Some r -> fillable r = true ->
  omap right (<[j := setRight r s]> rs) ≡ₚ omap right rs ++ [s].
Proof.
  intros Hr Hf.
  rewrite (omap_fill _ _ _ _ _ Hr), (omap_middle right rs j r Hr).
  cbn [right setRight]. rewrite (fillable_right r Hf). cbn [from_option].
  rewrite app_nil_l, <-app_assoc.
  apply Permutation_app_head, Permutation_app_comm.
Qed.

Lemma columns_step st line :
  omap left (rows (step st line)) =
    omap left (rows st) ++ leftSides [line] (oldLineCounter st)
  /\ omap right (rows (step st line)) ≡ₚ
       omap right (rows st) ++ rightSides [line] (newLineCounter st).
Proof.
  destruct (type line) eqn:Ht.
  - unfold step. cbn [leftSides rightSides]. rewrite Ht. cbn [rows].
    by rewrite !omap_app.
  - destruct (step_add st line Ht) as (_ & _ & [->|(j & r & Hr & Hc & Hf & -> & _)]);
      cbn [leftSides rightSides]; rewrite Ht.
    + by rewrite !omap_app.
    + rewrite lefts_fill, app_nil_r by done. split; [done|]. by apply rights_fill.
  - unfold step. cbn [leftSides rightSides]. rewrite Ht. cbn [rows].
    by rewrite !omap_app.
  - unfold step. cbn [leftSides rightSides]. by rewrite Ht, !app_nil_r.
Qed.

Lemma columns_loop ls : forall st,
  omap left (rows (loop ls st)) =
    omap left (rows st) ++ leftSides ls (oldLineCounter st)
  /\ omap right (rows (loop ls st)) ≡ₚ
       omap right (rows st) ++ rightSides ls (newLineCounter st).
Proof.
  induction ls as [|l ls IH]; intros st.
  { cbn. by rewrite !app_nil_r. }
  change (loop (l :: ls) st) with (loop ls (step st l)).
  destruct (IH (step st l)) as [-> ->].
  destruct (columns_step st l) as [-> ->].
  destruct (counters_step st l) as [-> ->].
  rewrite <-!app_assoc. cbn [leftSides rightSides].
  destruct (type l); cbn [app]; done.
Qed.

Lemma countLines_cons p l ls :
  countLines p (l :: ls) = ((if p (type l) then 1 else 0) + countLines p ls)%nat.
Proof.
  unfold countLines. destruct (p (type l)) eqn:E.
  - by rewrite filter_cons_True by done.
  - by rewrite filter_cons_False by congruence.
Qed.

Lemma leftSides_nums ls : forall o,
  num <$> leftSides ls o = seqZ o (Z.of_nat (countLines onOldSide ls)).
Proof.
  induction ls as [|l ls IH]; intros o; [done|].
  rewrite countLines_cons. cbn [leftSides].
  destruct (type l); cbn [onOldSide]; rewrite ?fmap_cons, ?IH; cbn [num];
    rewrite ?Nat.add_0_l; try done.
  - rewrite (seqZ_cons o) by lia. do 2 f_equal; lia.
  - rewrite (seqZ_cons o) by lia. do 2 f_equal; lia.
Qed.

Lemma rightSides_nums ls : forall n,
  num <$> rightSides ls n = seqZ n (Z.of_nat (countLines onNewSide ls)).
Proof.
  induction ls as [|l ls IH]; intros n; [done|].
  rewrite countLines_cons. cbn [rightSides].
  destruct (type l); cbn [onNewSide]; rewrite ?fmap_cons, ?IH; cbn [num];
    rewrite ?Nat.add_0_l; try done.
  - rewrite (seqZ_cons n) by lia. do 2 f_equal; lia.
  - rewrite (seqZ_cons n) by lia. do 2 f_equal; lia.
Qed.

Lemma counters_loop ls : forall st,
  oldLineCounter (loop ls st) = oldLineCounter st + Z.of_nat (countLines onOldSide ls)
  /\ newLineCounter (loop ls st) = newLineCounter st + Z.of_nat (countLines onNewSide ls).
Proof.
  induction ls as [|l ls IH]; intros st.
  { cbn. lia. }
  change (loop (l :: ls) st) with (loop ls (step st l)).
  destruct (IH (step st l)) as [-> ->].
  destruct (counters_step st l) as [-> ->].
  rewrite !countLines_cons. destruct (type l); cbn [onOldSide onNewSide]; lia.
Qed.

Lemma rows_step_length st line :
  (length (rows (step st line)) <=
   length (rows st) + (if bool_decide (type line = no_newline) then 0 else 1))%nat.
Proof.
  destruct (type line) eqn:Ht.
  - unfold step. rewrite Ht. cbn [rows]. rewrite length_app. simpl. lia.
  - destruct (step_add st line Ht) as (_ & _ & [->|(j & r & _ & _ & _ & -> & _)]).
    + rewrite length_app. simpl. lia.
    + rewrite length_insert. simpl. lia.
  - unfold step. rewrite Ht. cbn [rows]. rewrite length_app. simpl. lia.
  - unfold step. rewrite Ht. simpl. lia.
Qed.

Lemma rows_loop_length ls : forall st,
  (length (rows (loop ls st)) <=
   length (rows st) + countLines (fun t => negb (bool_decide (t = no_newline))) ls)%nat.
Proof.
  induction ls as [|l ls IH]; intros st.
  { cbn. lia. }
  change (loop (l :: ls) st) with (loop ls (step st l)).
  etrans; [apply IH|]. pose proof (rows_step_length st l).
  rewrite countLines_cons. destruct (bool_decide (type l = no_newline)); simpl in *; lia.
Qed.

(** *** Context lines only *)


(** *** Marker lines *)

Lemma markers_loop ls : forall st,
  loop (filter (fun l => type l <> no_newline) ls) st = loop ls st.
Proof.
  induction ls as [|l ls IH]; intros st; [done|].
  destruct (decide (type l = no_newline)) as [Hm|Hm].
  - rewrite filter_cons_False by naive_solver. rewrite IH.
    change (loop (l :: ls) st) with (loop ls (step st l)).
    unfold step. by rewrite Hm.
  - rewrite filter_cons_True by done.
    change (loop (l :: ?k) st) with (loop k (step st l)). apply IH.
Qed.

(** *** A context line splits the hunk *)

Lemma merge_after_context pre c suf s :
  row_type c = Rcontext ->
  merge (pre ++ c :: suf) s = (fun suf' => pre ++ c :: suf') <$> merge suf s.
Proof.
  intros Hc. unfold merge. rewrite length_app. cbn [length].
  replace (length pre + S (length suf))%nat with (S (length pre) + length suf)%nat by lia.
  by apply scan_after_context.
Qed.

Lemma barrier_step pre c rs o n l :
  row_type c = Rcontext ->
  step (mkState (pre ++ c :: rs) o n) l =
  let st := step (mkState rs o n) l in
  mkState (pre ++ c :: rows st) (oldLineCounter st) (newLineCounter st).
Proof.
  intros Hc. unfold step. cbn [rows oldLineCounter newLineCounter].
  destruct (type l); cbn [rows oldLineCounter newLineCounter];
    rewrite ?app_comm_cons, ?app_assoc; try done.
  rewrite <-?app_assoc, <-?app_comm_cons.
  rewrite merge_after_context by done.
  destruct (merge rs _); cbn [fmap option_fmap option_map rows oldLineCounter newLineCounter];
    by rewrite ?app_comm_cons, ?app_assoc.
Qed.

Lemma barrier_loop pre c ls : forall rs o n,
  row_type c = Rcontext ->
  loop ls (mkState (pre ++ c :: rs) o n) =
  let st := loop ls (mkState rs o n) in
  mkState (pre ++ c :: rows st) (oldLineCounter st) (newLineCounter st).
Proof.
  induction ls as [|l ls IH]; intros rs o n Hc; [done|].
  change (loop (l :: ls) ?st) with (loop ls (step st l)).
  rewrite barrier_step by done. cbv zeta.
  destruct (step (mkState rs o n) l) as [rs' o' n'].
  cbn [rows oldLineCounter newLineCounter]. by apply IH.
Qed.
End Columns.


(** X7.  The split view has at least as many rows as the longer of its
    two columns needs and at most one row per line that is not a
    [no-newline] marker. *)
Theorem row_count_bounds (hunk : Hunk) :
  (countLines onOldSide (lines hunk) <= length (SplitHunk hunk))%nat
  /\ (countLines onNewSide (lines hunk) <= length (SplitHunk hunk))%nat
  /\ (length (SplitHunk hunk) <=
      countLines (fun t => negb (bool_decide (t = no_newline))) (lines hunk))%nat.
Proof.
  unfold SplitHunk.
  destruct (columns_loop (lines hunk) (Split.init hunk)) as [Hl Hr].
  cbn [Split.init Split.rows omap list_omap app Split.oldLineCounter Split.newLineCounter]
    in Hl, Hr.
  pose proof (f_equal length (leftSides_nums (lines hunk) (oldStart hunk))) as Hln.
  pose proof (f_equal length (rightSides_nums (lines hunk) (newStart hunk))) as Hrn.
  rewrite length_fmap, length_seqZ, Nat2Z.id in Hln, Hrn.
  split_and!.
  - rewrite <-Hln, <-Hl. apply omap_length_le.
  - rewrite <-Hrn, <-(Permutation_length Hr). apply omap_length_le.
  - etrans; [apply rows_loop_length|]. done.
Qed.



(** X9.  The split view does not see [no-newline] marker lines: a hunk
    and the same hunk without them have the same rows. *)
Theorem split_view_ignores_markers (hunk : Hunk) :
  SplitHunk (withoutMarkers hunk) = SplitHunk hunk.
Proof. unfold SplitHunk, withoutMarkers. cbn [lines]. by rewrite markers_loop. Qed.

(** X10.  A context line splits a hunk in two independent parts: the rows
    of [l1 ++ c :: l2], [c] a context line, are the rows of [l1], the
    context row of [c], and the rows of [l2] taken as a hunk of its own
    that starts where [c] ends.  No addition after [c] changes a row
    before it. *)
Theorem context_line_splits_hunk (hd : string) (l1 l2 : list DiffLine)
        (c : DiffLine) (o n : Z) :
  type c = context ->
  let o1 := o + Z.of_nat (countLines onOldSide l1) in
  let n1 := n + Z.of_nat (countLines onNewSide l1) in
  SplitHunk (mkHunk hd (l1 ++ c :: l2) o n) =
    SplitHunk (mkHunk hd l1 o n)
      ++ mkRow Rcontext (Some (mkSide o1 (content c) None))
                        (Some (mkSide n1 (content c) None))
      :: SplitHunk (mkHunk hd l2 (o1 + 1) (n1 + 1)).
Proof.
  intros Hc o1 n1. unfold SplitHunk, Split.init.
  cbn [lines oldStart newStart].
  rewrite loop_split_app.
  destruct (counters_loop l1 (Split.mkState [] o n)) as [Ho Hn].
  cbn [Split.oldLineCounter Split.newLineCounter] in Ho, Hn.
  destruct (Split.loop l1 (Split.mkState [] o n)) as [rs1 o' n'].
  cbn [Split.rows Split.oldLineCounter Split.newLineCounter] in *. subst o' n'.
  change (Split.loop (c :: l2) ?st) with (Split.loop l2 (Split.step st c)).
  unfold Split.step at 1. rewrite Hc.
  cbn [Split.rows Split.oldLineCounter Split.newLineCounter].
  rewrite <-(app_nil_r (rs1 ++ _)), <-app_assoc. cbn [app].
  by rewrite barrier_loop.
Qed.

Lemma context_line_splits_hunk_witness :
  SplitHunk (mkHunk "@@" ([mkLine "-a" delete] ++ mkLine " b" context :: [mkLine "+c" add]) 1 1) =
    SplitHunk (mkHunk "@@" [mkLine "-a" delete] 1 1)
      ++ mkRow Rcontext (Some (mkSide 2 " b" None)) (Some (mkSide 1 " b" None))
      :: SplitHunk (mkHunk "@@" [mkLine "+c" add] 3 2).
Proof.
  apply (context_line_splits_hunk "@@" [mkLine "-a" delete] [mkLine "+c" add]
           (mkLine " b" context) 1 1).
  reflexivity.
Defined.

(** ** The unified view *)

Section UnifiedView.





Lemma unified_cells ls : forall o n,
  Forall (fun l => type l <> no_newline) ls ->
  omap oldCell (unifiedLines ls o n) = sideCell <$> leftSides ls o
  /\ omap newCell (unifiedLines ls o n) = sideCell <$> rightSides ls n.
Proof.
  induction ls as [|l ls IH]; intros o n Hall; [done|].
  apply Forall_cons in Hall as [Hl Hall].
  cbn [unifiedLines leftSides rightSides].
  destruct (type l) eqn:Ht; [| | |done].
  - rewrite !bool_decide_eq_false_2 by done. cbn [negb omap list_omap].
    unfold oldCell at 1, newCell at 1. cbn [oldNum newNum u_content fmap option_fmap option_map].
    destruct (IH (o + 1) (n + 1) Hall) as [-> ->]. done.
  - rewrite bool_decide_eq_true_2, bool_decide_eq_false_2 by done. cbn [negb omap list_omap].
    unfold oldCell at 1, newCell at 1. cbn [oldNum newNum u_content fmap option_fmap option_map].
    destruct (IH o (n + 1) Hall) as [-> ->]. done.
  - rewrite bool_decide_eq_false_2, bool_decide_eq_true_2 by done. cbn [negb omap list_omap].
    unfold oldCell at 1, newCell at 1. cbn [oldNum newNum u_content fmap option_fmap option_map].
    destruct (IH (o + 1) n Hall) as [-> ->]. done.
Qed.
End UnifiedView.


(** X12.  On a hunk without [no-newline] marker lines the two views agree:
    the numbered texts of the old side of the unified view are those of
    the left column of the split view, in the same order, and the
    numbered texts of the new side are those of the right column, each
    once. *)
Theorem views_agree_without_markers (hunk : Hunk) :
  Forall (fun l => type l <> no_newline) (lines hunk) ->
  omap oldCell (UnifiedHunk hunk) = sideCell <$> omap left (SplitHunk hunk)
  /\ omap newCell (UnifiedHunk hunk) ≡ₚ sideCell <$> omap right (SplitHunk hunk).
Proof.
  intros Hall. unfold UnifiedHunk, SplitHunk.
  destruct (unified_cells (lines hunk) (oldStart hunk) (newStart hunk) Hall) as [-> ->].
  destruct (columns_loop (lines hunk) (Split.init hunk)) as [Hl Hr].
  cbn [Split.init Split.rows omap list_omap app Split.oldLineCounter Split.newLineCounter]
    in Hl, Hr.
  by rewrite Hl, Hr.
Qed.

Lemma views_agree_without_markers_witness :
  omap oldCell (UnifiedHunk hunk21) = sideCell <$> omap left (SplitHunk hunk21)
  /\ omap newCell (UnifiedHunk hunk21) ≡ₚ sideCell <$> omap right (SplitHunk hunk21).
Proof.
  apply (views_agree_without_markers hunk21). repeat constructor; discriminate.
Defined.

(** With a marker line the views part: the unified view numbers the
    marker and the context line after it one further. *)
Example views_differ_with_marker :
  let hunk := mkHunk "@@ -1,2 +1,2 @@"
                [mkLine "-a" delete; mkLine "\ No newline at end of file" no_newline;
                 mkLine " b" context] 1 1 in
  omap oldCell (UnifiedHunk hunk) =
    [(1, "-a"); (2, "\ No newline at end of file"); (3, " b")]
  /\ sideCell <$> omap left (SplitHunk hunk) = [(1, "-a"); (2, " b")].
Proof. split; reflexivity. Qed.

(** ** The stat bars *)

Section Stats.

Lemma foldl_sum {A} (g : A -> nat) (l : list A) : forall a,
  foldl (fun acc x => (acc + g x)%nat) a l = (a + sum_list (g <$> l))%nat.
Proof.
  induction l as [|x l IH]; intros a; [cbn; lia|].
  cbn [foldl fmap list_fmap sum_list sum_list_with]. rewrite IH.
  change (sum_list_with id (g <$> l)) with (sum_list (g <$> l)). cbn. lia.
Qed.

Lemma addSides_length ls : forall n,
  length (addSides ls n) = length (filter (fun l => type l = add) ls).
Proof.
  induction ls as [|l ls IH]; intros n; [done|]. cbn [addSides].
  destruct (type l) eqn:Ht;
    rewrite ?(filter_cons_True _ l), ?(filter_cons_False _ l) by congruence;
    cbn [length]; by rewrite ?IH.
Qed.

Lemma deleteSides_length ls : forall o,
  length (deleteSides ls o) = length (filter (fun l => type l = delete) ls).
Proof.
  induction ls as [|l ls IH]; intros o; [done|]. cbn [deleteSides].
  destruct (type l) eqn:Ht;
    rewrite ?(filter_cons_True _ l), ?(filter_cons_False _ l) by congruence;
    cbn [length]; by rewrite ?IH.
Qed.

Lemma unified_count t ls : forall o n,
  length (filter (fun u => u_type u = t) (unifiedLines ls o n)) =
  length (filter (fun l => type l = t) ls).
Proof.
  induction ls as [|l ls IH]; intros o n; [done|]. cbn [unifiedLines].
  destruct (decide (type l = t)) as [Ht|Ht].
  - rewrite !filter_cons_True by done. cbn [length]. by rewrite IH.
  - rewrite !filter_cons_False by done. by rewrite IH.
Qed.

Lemma split_counts (hunk : Hunk) :
  length (omap rightAdd (SplitHunk hunk)) = countType add hunk
  /\ length (omap leftDelete (SplitHunk hunk)) = countType delete hunk.
Proof.
  unfold SplitHunk, countType.
  destruct (sides_loop (lines hunk) (Split.init hunk)) as [Hl Hr].
  cbn [Split.init Split.rows omap list_omap app Split.oldLineCounter Split.newLineCounter]
    in Hl, Hr.
  rewrite (Permutation_length Hr), Hl. split.
  - apply addSides_length.
  - apply deleteSides_length.
Qed.
End Stats.

(** X13.  The stat bars count what the views show.  The [+n] of a file is
    the number of rows of its split view that carry an addition on the
    right, and the number of addition lines of its unified view; the [-n]
    is the number of rows that carry a deletion on the left, and the
    number of deletion lines of the unified view; and the totals of the
    page are the sums of the counts of the files. *)
Theorem stats_count_what_views_show (parsedFiles : list FileChange) (file : FileChange) :
  fileCount add file =
    sum_list ((fun h => length (omap rightAdd (SplitHunk h))) <$> hunks file)
  /\ fileCount delete file =
       sum_list ((fun h => length (omap leftDelete (SplitHunk h))) <$> hunks file)
  /\ (forall t, fileCount t file =
        sum_list ((fun h => length (filter (fun u => u_type u = t) (UnifiedHunk h)))
                    <$> hunks file))
  /\ (forall t, totalCount t parsedFiles = sum_list (fileCount t <$> parsedFiles)).
Proof.
  unfold fileCount, totalCount. split_and!.
  - rewrite foldl_sum. cbn. f_equal. apply list_fmap_ext. intros _ h _.
    symmetry. apply split_counts.
  - rewrite foldl_sum. cbn. f_equal. apply list_fmap_ext. intros _ h _.
    symmetry. apply split_counts.
  - intros t. rewrite foldl_sum. cbn. f_equal. apply list_fmap_ext. intros _ h _.
    symmetry. apply unified_count.
  - intros t. by rewrite foldl_sum.
Qed.

(** ** The collapse state *)

(** X14.  Clicking the header of file [f] flips the collapse state of [f]
    and of every file with the same key ([oldName], or [newName] when
    [oldName] is empty), and of no other file; a second click restores
    what every file showed. *)
Theorem toggle_flips_files_of_same_key (inherited : string -> bool)
        (collapsedFiles : gmap string bool) (f g : FileChange) :
  let once := toggleCollapse inherited (fileKey f) collapsedFiles in
  let twice := toggleCollapse inherited (fileKey f) once in
  isCollapsed inherited once g =
    (if decide (fileKey g = fileKey f)
     then negb (isCollapsed inherited collapsedFiles g)
     else isCollapsed inherited collapsedFiles g)
  /\ isCollapsed inherited twice g = isCollapsed inherited collapsedFiles g.
Proof.
  cbv zeta. unfold isCollapsed, toggleCollapse, truthyAt.
  destruct (decide (fileKey g = fileKey f)) as [->|Hne].
  - rewrite !lookup_insert_eq. split; [done|]. by rewrite negb_involutive.
  - by rewrite !lookup_insert_ne by done.
Qed.
